(** * CraftWeapon: ammunition state of a craft-mounted weapon

    A shallow embedding of [src/Savegame/CraftWeapon.cpp] (OpenXcom) and
    the properties of its rearm cycle, ammo clamping, readiness queries,
    persistence and clip counting.

    Conventions of the embedding.
    - A C++ [int] is a [Z] within [INT_MIN, INT_MAX].  The result of
      every arithmetic operation on [int]s passes through [wrap]: the
      two's complement wrap-around that builds of the code compute
      ([int_add], [int_sub], [int_mul], [int_div]).  Comparisons and
      [std::min] need no wrapping.  [rearm_values] lists the exact
      results of the arithmetic of [rearm]; [rearm_values_in_range]
      gives a domain on which all of them fit, and there the code
      computes with exact integers ([rearm_exact]).
    - [a / b] on C++ integers truncates towards zero: [Z.quot].
    - A method of [CraftWeapon] is a computation in the state monad [M]
      over a [World]: the receiver object and the state of the global
      random number generator.  A [const] method is written in the same
      monad and proved to return the world it received. *)

From Stdlib Require Import ZArith List String Bool Lia.
From Stdlib Require Import QArith Qround Qabs Lqa.
Import ListNotations.

Local Open Scope Z_scope.

(** ** Machine integers *)

Definition INT_MIN : Z := - 2 ^ 31.
Definition INT_MAX : Z := 2 ^ 31 - 1.

Definition int_range (z : Z) : Prop := INT_MIN <= z <= INT_MAX.

(** What two's complement hardware keeps of a result: its residue
    modulo [2^32] in [INT_MIN, INT_MAX]. *)
Definition wrap (z : Z) : Z := (z - INT_MIN) mod 2 ^ 32 + INT_MIN.

(** Arithmetic on [int]s.  The one division of the code, by the clip
    size, is guarded by [clipSize > 0]. *)
Definition int_add (a b : Z) : Z := wrap (a + b).
Definition int_sub (a b : Z) : Z := wrap (a - b).
Definition int_mul (a b : Z) : Z := wrap (a * b).
Definition int_div (a b : Z) : Z := wrap (Z.quot a b).

(** ** Collaborators *)

(** Modelled from the spec: [RuleItem] is declared in [Mod/RuleItem.h],
    which is not part of the sources at hand; the only member used here
    is the item's clip size ("an optional clipItem reference whose own
    clipSize may override ..."). *)
Record RuleItem : Type := mkRuleItem {
  getClipSize : Z
}.

(** Modelled from the spec: [RuleCraftWeapon] is declared in
    [Mod/RuleCraftWeapon.h], which is not part of the sources at hand.
    The fields are the getters [CraftWeapon.cpp] calls on [_rules]: the
    type identifier, [ammoMax], [rearmRate], the statistical bullet
    saving flag and the optional clip item (a null pointer is [None]). *)
Record RuleCraftWeapon : Type := mkRuleCraftWeapon {
  getType : string;
  getAmmoMax : Z;
  getRearmRate : Z;
  useStatisticalBulletSaving : bool;
  getClipItem : option RuleItem
}.

(** The ranges the specification gives for the configuration:
    [ammoMax >= 0] and [rearmRate >= 0]. *)
Definition rules_wf (r : RuleCraftWeapon) : Prop :=
  0 <= getAmmoMax r /\ 0 <= getRearmRate r.

(** Modelled from the spec: the random number generator [RNG::generate]
    lives in [Engine/RNG.cpp], which is not part of the sources at hand.
    It is "a single operation, draw uniform integer" between two bounds,
    acting on a global generator state; a draw returns the number and
    the generator's next state. *)
Class RNG : Type := mkRNG {
  RngState : Type;
  generate : Z -> Z -> RngState -> Z * RngState
}.


(** A scripted generator, for running the model on concrete inputs:
    its state is the list of raw numbers still to come, and a draw
    reduces the next raw number into the range asked for. *)
Definition scripted_generate (lo hi : Z) (g : list Z) : Z * list Z :=
  match g with
  | [] => (lo, [])
  | x :: g' => (lo + x mod (hi - lo + 1), g')
  end.

#[global] Instance ScriptedRNG : RNG :=
  {| RngState := list Z; generate := scripted_generate |}.

(** Modelled from the spec: the YAML reader and writer are declared in
    [Engine/Yaml.h], which is not part of the sources at hand.  A saved
    record is a map node: the keys written, in the order written, each
    with a scalar.  [write] appends a key; [tryRead] looks a key up and
    stores its scalar in the destination.  What becomes of the
    destination when the key is absent (or holds a scalar of another
    type) is the reader's business: the specification says that missing
    fields "default silently (... rearming/disabled default to false)",
    which a reader does either by storing the default or by keeping a
    destination that was constructed with it.  [AbsentKey] names the two
    readings and a [YamlReader] fixes one; the properties of [load] are
    proved for every reader. *)
Inductive AbsentKey : Type :=
| KeepDestination
| StoreDefault.

Class YamlReader : Type := mkYamlReader {
  on_absent : AbsentKey
}.

Inductive YamlScalar : Type :=
| YString (s : string)
| YInt (z : Z)
| YBool (b : bool).

Definition YamlNode : Type := list (string * YamlScalar).

Definition setAsMap : YamlNode := [].

Definition write (node : YamlNode) (key : string) (v : YamlScalar) : YamlNode :=
  node ++ [(key, v)].

Fixpoint child (node : YamlNode) (key : string) : option YamlScalar :=
  match node with
  | [] => None
  | (k, v) :: rest => if String.eqb k key then Some v else child rest key
  end.

Definition has_key (node : YamlNode) (key : string) : Prop :=
  In key (map fst node).

Definition tryRead_int {Y : YamlReader}
    (node : YamlNode) (key : string) (out : Z) : Z :=
  match child node key with
  | Some (YInt z) => z
  | _ => match on_absent with
         | KeepDestination => out
         | StoreDefault => 0
         end
  end.

Definition tryRead_bool {Y : YamlReader}
    (node : YamlNode) (key : string) (out : bool) : bool :=
  match child node key with
  | Some (YBool b) => b
  | _ => match on_absent with
         | KeepDestination => out
         | StoreDefault => false
         end
  end.

(** The two readers. *)
Definition KeepingReader : YamlReader := mkYamlReader KeepDestination.
Definition DefaultingReader : YamlReader := mkYamlReader StoreDefault.

(** [(int)floor((double)a / b)], as [getClipsLoaded] computes it.  Both
    operands are 32-bit integers, which a double holds exactly.  For
    [b <> 0] the correctly rounded quotient has the floor of the exact
    quotient (see [floor_rounded_quotient]), which is [Z.div].  For
    [b = 0] the quotient is an infinity or a NaN; converting it to [int]
    has no defined value: [None].  The floor quotient of two [int]s is
    an [int] but for [INT_MIN / -1]; with a divisor above 0, as the
    rearm rate and the clip size are when they divide, the conversion
    always succeeds ([floor_double_to_int] spells the conversion out). *)
Definition floor_double_div (a b : Z) : option Z :=
  if b =? 0 then None else Some (a / b).

(** The same computation over the rationals, with the rounding of the
    floating-point division left as a function [rnd]. *)
Definition floor_rounded_div (rnd : Q -> Q) (a b : Z) : Z :=
  Qfloor (rnd (inject_Z a / inject_Z b)%Q).

(** The conversion [(int)x] of a whole double [x]: its value when an
    [int] holds it, undefined otherwise. *)
Definition to_int (x : Z) : option Z :=
  if (INT_MIN <=? x) && (x <=? INT_MAX) then Some x else None.

(** [(int)floor((double)a / b)] with the rounding [rnd] of the division
    and the conversion to [int] both spelled out. *)
Definition floor_double_to_int (rnd : Q -> Q) (a b : Z) : option Z :=
  if b =? 0 then None else to_int (floor_rounded_div rnd a b).

(** A rounding that is not the identity: down onto the multiples of
    [2^-52]. *)
Definition round_down_52 (x : Q) : Q :=
  (inject_Z (Qfloor (x * inject_Z (2 ^ 52))) / inject_Z (2 ^ 52))%Q.

(** ** The weapon and its world *)

Record CraftWeapon : Type := mkCraftWeapon {
  _rules : RuleCraftWeapon;
  _ammo : Z;
  _rearming : bool;
  _disabled : bool
}.

(** The data-model invariant on the ammo count. *)
Definition ammo_inv (this : CraftWeapon) : Prop :=
  0 <= _ammo this <= getAmmoMax (_rules this).

Section Model.
Context {R : RNG} {Y : YamlReader}.

Record World : Type := mkWorld {
  self : CraftWeapon;
  rng : RngState
}.

(** The state monad of the methods. *)
Definition M (A : Type) : Type := World -> A * World.

Definition ret {A : Type} (a : A) : M A := fun w => (a, w).

Definition bind {A B : Type} (m : M A) (k : A -> M B) : M B :=
  fun w => let (a, w') := m w in k a w'.

Notation "x <- m ;; k" := (bind m (fun x => k))
  (at level 61, m at next level, right associativity).
Notation "' pat <- m ;; k" := (bind m (fun pat => k))
  (at level 61, pat pattern, m at next level, right associativity).
Notation "m ;;; k" := (bind m (fun _ => k))
  (at level 61, right associativity).

Definition this_ : M CraftWeapon := fun w => (self w, w).

Definition set_ammo (a : Z) : M unit := fun w =>
  (tt, mkWorld (mkCraftWeapon (_rules (self w)) a
                  (_rearming (self w)) (_disabled (self w))) (rng w)).

Definition set_rearming (b : bool) : M unit := fun w =>
  (tt, mkWorld (mkCraftWeapon (_rules (self w)) (_ammo (self w))
                  b (_disabled (self w))) (rng w)).

Definition set_disabled (b : bool) : M unit := fun w =>
  (tt, mkWorld (mkCraftWeapon (_rules (self w)) (_ammo (self w))
                  (_rearming (self w)) b) (rng w)).

Definition RNG_generate (lo hi : Z) : M Z := fun w =>
  let (n, g) := generate lo hi (rng w) in (n, mkWorld (self w) g).

(** [CraftWeapon::CraftWeapon(rules, ammo)]. *)
Definition newCraftWeapon (rules : RuleCraftWeapon) (ammo : Z) : CraftWeapon :=
  mkCraftWeapon rules ammo false false.

(** [CraftWeapon::load]. *)
Definition load (reader : YamlNode) : M unit :=
  this <- this_ ;;
  set_ammo (tryRead_int reader "ammo" (_ammo this)) ;;;
  set_rearming (tryRead_bool reader "rearming" (_rearming this)) ;;;
  set_disabled (tryRead_bool reader "disabled" (_disabled this)).

(** [CraftWeapon::save]. *)
Definition save : M YamlNode :=
  this <- this_ ;;
  let writer := setAsMap in
  let writer := write writer "type" (YString (getType (_rules this))) in
  let writer := write writer "ammo" (YInt (_ammo this)) in
  let writer := if _rearming this
                then write writer "rearming" (YBool (_rearming this))
                else writer in
  let writer := if _disabled this
                then write writer "disabled" (YBool (_disabled this))
                else writer in
  ret writer.

(** [CraftWeapon::getRules]. *)
Definition getRules : M RuleCraftWeapon :=
  this <- this_ ;; ret (_rules this).

(** [CraftWeapon::getAmmo]. *)
Definition getAmmo : M Z :=
  this <- this_ ;; ret (_ammo this).

(** [CraftWeapon::setAmmo]. *)
Definition setAmmo (ammo : Z) : M bool :=
  rules <- getRules ;;
  set_ammo ammo ;;;
  if ammo <? 0 then
    set_ammo 0 ;;;
    ret false
  else
    (if ammo >? getAmmoMax rules
     then set_ammo (getAmmoMax rules)
     else ret tt) ;;;
    ret true.

(** [CraftWeapon::isRearming]. *)
Definition isRearming : M bool :=
  this <- this_ ;;
  if _disabled this then ret false else ret (_rearming this).

(** [CraftWeapon::setRearming]. *)
Definition setRearming (rearming : bool) : M unit :=
  set_rearming rearming.

(** [CraftWeapon::isDisabled]. *)
Definition isDisabled : M bool :=
  this <- this_ ;; ret (_disabled this).

(** [CraftWeapon::setDisabled]. *)
Definition setDisabled (disabled : bool) : M unit :=
  set_disabled disabled.

(** [CraftWeapon::rearm]. *)
Definition rearm (available clipSize : Z) : M Z :=
  rules <- getRules ;;
  this <- this_ ;;
  let ammoUsed := getRearmRate rules in
  let clipsSaved := 0 in
  ' (ammoUsed, clipsSaved) <-
    (if clipSize >? 0 then
       (* +(clipSize - 1) correction for rounding up *)
       let needed :=
         int_div (Z.min (getRearmRate rules)
                        (int_sub (int_add (int_sub (getAmmoMax rules)
                                                   (_ammo this))
                                          clipSize)
                                 1))
                 clipSize in
       let ammoUsed :=
         int_mul (if needed >? available then available else needed)
                 clipSize in
       (* statistical bullet saving *)
       clipsSaved <-
         (if (clipSize >? 1) && useStatisticalBulletSaving rules then
            let overusedAmmo :=
              int_sub (int_add (_ammo this) ammoUsed) (getAmmoMax rules) in
            if overusedAmmo >? 0 then
              n <- RNG_generate 0 (int_sub clipSize 1) ;;
              if n <? overusedAmmo then ret 1 else ret clipsSaved
            else ret clipsSaved
          else ret clipsSaved) ;;
       ret (ammoUsed, clipsSaved)
     else ret (ammoUsed, clipsSaved)) ;;
  this <- this_ ;;
  setAmmo (int_add (_ammo this) ammoUsed) ;;;
  this <- this_ ;;
  set_rearming (_ammo this <? getAmmoMax rules) ;;;
  ret (if clipSize <=? 0 then 0
       else int_sub (int_div ammoUsed clipSize) clipsSaved).

(** [CraftWeapon::getClipsLoaded].  [retVal] holds the converted
    quotient, or no value when the conversion has none; the assignment
    under the clip test replaces whatever it held. *)
Definition getClipsLoaded : M (option Z) :=
  this <- this_ ;;
  rules <- getRules ;;
  let retVal := floor_double_div (_ammo this) (getRearmRate rules) in
  let clip := getClipItem rules in
  let retVal :=
    match clip with
    | Some c => if getClipSize c >? 0
                then floor_double_div (_ammo this) (getClipSize c)
                else retVal
    | None => retVal
    end in
  ret retVal.

End Model.


(** ** The locals of [rearm] as functions of its inputs

    [rearm_run] shows that these are the values [rearm] computes. *)

Definition needed_of (rules : RuleCraftWeapon) (ammo clipSize : Z) : Z :=
  int_div (Z.min (getRearmRate rules)
                 (int_sub (int_add (int_sub (getAmmoMax rules) ammo)
                                   clipSize)
                          1))
          clipSize.

Definition ammoUsed_of (rules : RuleCraftWeapon)
    (ammo available clipSize : Z) : Z :=
  if clipSize >? 0 then
    int_mul (if needed_of rules ammo clipSize >? available
             then available else needed_of rules ammo clipSize)
            clipSize
  else getRearmRate rules.

Definition overusedAmmo_of (rules : RuleCraftWeapon)
    (ammo available clipSize : Z) : Z :=
  int_sub (int_add ammo (ammoUsed_of rules ammo available clipSize))
          (getAmmoMax rules).

(** Whether [rearm] reaches the call of [RNG::generate]. *)
Definition draws (rules : RuleCraftWeapon)
    (ammo available clipSize : Z) : bool :=
  (clipSize >? 0) && (clipSize >? 1) && useStatisticalBulletSaving rules
  && (overusedAmmo_of rules ammo available clipSize >? 0).

(** ** The exact values of the same expressions

    The expressions of [rearm] evaluated on the integers, without
    wrap-around: what the code computes as long as nothing overflows. *)

Definition exact_needed (rules : RuleCraftWeapon) (ammo clipSize : Z) : Z :=
  Z.quot (Z.min (getRearmRate rules)
                (getAmmoMax rules - ammo + clipSize - 1)) clipSize.

Definition exact_ammoUsed (rules : RuleCraftWeapon)
    (ammo available clipSize : Z) : Z :=
  if clipSize >? 0 then
    (if exact_needed rules ammo clipSize >? available
     then available else exact_needed rules ammo clipSize) * clipSize
  else getRearmRate rules.

Definition exact_overusedAmmo (rules : RuleCraftWeapon)
    (ammo available clipSize : Z) : Z :=
  ammo + exact_ammoUsed rules ammo available clipSize - getAmmoMax rules.

(** Whether the call of [RNG::generate] is reached, on exact values. *)
Definition exact_draws (rules : RuleCraftWeapon)
    (ammo available clipSize : Z) : bool :=
  (clipSize >? 0) && (clipSize >? 1) && useStatisticalBulletSaving rules
  && (exact_overusedAmmo rules ammo available clipSize >? 0).

(** The exact results of the arithmetic [rearm] performs on [int]s, in
    the order of evaluation. *)
Definition rearm_values (rules : RuleCraftWeapon)
    (ammo available clipSize : Z) : list Z :=
  if clipSize >? 0 then
    [ getAmmoMax rules - ammo;
      getAmmoMax rules - ammo + clipSize;
      getAmmoMax rules - ammo + clipSize - 1;
      exact_needed rules ammo clipSize;
      exact_ammoUsed rules ammo available clipSize;
      ammo + exact_ammoUsed rules ammo available clipSize;
      exact_overusedAmmo rules ammo available clipSize;
      clipSize - 1;
      Z.quot (exact_ammoUsed rules ammo available clipSize) clipSize;
      Z.quot (exact_ammoUsed rules ammo available clipSize) clipSize - 1 ]
  else
    [ ammo + getRearmRate rules ].

(** ** The specification's formulas *)

(** "Clamps newAmmo into [lo, hi]". *)
Definition clamp (lo hi x : Z) : Z :=
  if x <? lo then lo else if hi <? x then hi else x.

(** "needed = floor((min(rearmRate, ammoMax - ammo + clipSize - 1)) /
    clipSize)": a floor division, [Z.div]. *)
Definition spec_needed (rules : RuleCraftWeapon) (ammo clipSize : Z) : Z :=
  Z.min (getRearmRate rules) (getAmmoMax rules - ammo + clipSize - 1)
  / clipSize.

(** "clipsToUse = min(needed, available)". *)
Definition spec_clipsToUse (rules : RuleCraftWeapon)
    (ammo available clipSize : Z) : Z :=
  Z.min (spec_needed rules ammo clipSize) available.

(** ** Sample configurations *)

Definition cannon (ammoMax rearmRate : Z) (saving : bool)
    (clip : option RuleItem) : RuleCraftWeapon :=
  mkRuleCraftWeapon "STR_CANNON_UC" ammoMax rearmRate saving clip.

Definition world_of (rules : RuleCraftWeapon) (ammo : Z)
    (rearming disabled : bool) (script : list Z) : @World ScriptedRNG :=
  mkWorld (mkCraftWeapon rules ammo rearming disabled) script.

(** A configuration at the top of the [int] range. *)
Definition huge_cannon (rearmRate : Z) (saving : bool) : RuleCraftWeapon :=
  cannon INT_MAX rearmRate saving None.

(** * Properties *)

Ltac cmp :=
  repeat match goal with
  | |- context [Z.gtb ?a ?b] => rewrite (Z.gtb_ltb a b)
  | |- context [Z.ltb ?a ?b] => destruct (Z.ltb_spec a b)
  | |- context [Z.leb ?a ?b] => destruct (Z.leb_spec a b)
  | |- context [Z.eqb ?a ?b] => destruct (Z.eqb_spec a b)
  end.

(** ** Wrap-around *)

Lemma wrap_in_range (z : Z) : int_range z -> wrap z = z.
Proof.
  unfold int_range, wrap, INT_MIN, INT_MAX. intros H.
  rewrite Z.mod_small; lia.
Qed.

Lemma wrap_range (z : Z) : int_range (wrap z).
Proof.
  unfold int_range, wrap, INT_MIN, INT_MAX.
  pose proof (Z.mod_pos_bound (z - - 2 ^ 31) (2 ^ 32) ltac:(lia)). lia.
Qed.

(** Dividing an [int] by a positive number stays within [int]. *)
Lemma quot_in_range (a c : Z) :
  int_range a -> 0 < c -> int_range (Z.quot a c).
Proof.
  unfold int_range, INT_MIN, INT_MAX. intros Ha Hc.
  destruct (Z.le_gt_cases 0 a) as [H|H].
  - pose proof (Z.quot_pos a c H Hc).
    assert (Z.quot a c <= a) by (apply Z.quot_le_upper_bound; nia).
    lia.
  - assert (Hq : Z.quot a c = - Z.quot (- a) c)
      by (rewrite Z.quot_opp_l by lia; lia).
    pose proof (Z.quot_pos (- a) c ltac:(lia) Hc).
    assert (Z.quot (- a) c <= - a) by (apply Z.quot_le_upper_bound; nia).
    lia.
Qed.

(** At a divisor above 1 there is room for one more below. *)
Lemma quot_pred_in_range (a c : Z) :
  int_range a -> 1 < c -> int_range (Z.quot a c - 1).
Proof.
  unfold int_range, INT_MIN, INT_MAX. intros Ha Hc.
  destruct (Z.le_gt_cases 0 a) as [H|H].
  - pose proof (Z.quot_pos a c H ltac:(lia)).
    assert (Z.quot a c <= a) by (apply Z.quot_le_upper_bound; nia).
    lia.
  - assert (Hq : Z.quot a c = - Z.quot (- a) c)
      by (rewrite Z.quot_opp_l by lia; lia).
    pose proof (Z.quot_pos (- a) c ltac:(lia) ltac:(lia)).
    assert (2 * Z.quot (- a) c <= - a).
    { pose proof (Z.mul_quot_le (- a) c ltac:(lia) ltac:(lia)). nia. }
    lia.
Qed.

Section Properties.
Context {R : RNG} {Y : YamlReader}.

(** [setAmmo] in closed form: the ammo is clamped, the result tells
    whether the request was non-negative, nothing else changes. *)
Lemma setAmmo_run (ammo : Z) (w : World) :
  setAmmo ammo w =
  (negb (ammo <? 0),
   mkWorld (mkCraftWeapon (_rules (self w))
              (clamp 0 (getAmmoMax (_rules (self w))) ammo)
              (_rearming (self w)) (_disabled (self w))) (rng w)).
Proof.
  unfold setAmmo, clamp, bind, getRules, this_, set_ammo, ret; simpl.
  rewrite Z.gtb_ltb.
  destruct (ammo <? 0); simpl; [reflexivity|].
  destruct (getAmmoMax (_rules (self w)) <? ammo); reflexivity.
Qed.

(** [rearm] in closed form, on the [int] values the code computes. *)
Lemma rearm_run (available clipSize : Z) (w : World) :
  let rules := _rules (self w) in
  let ammo := _ammo (self w) in
  let ammoUsed := ammoUsed_of rules ammo available clipSize in
  let d := generate 0 (int_sub clipSize 1) (rng w) in
  let drawn := draws rules ammo available clipSize in
  let clipsSaved :=
    if drawn && (fst d <? overusedAmmo_of rules ammo available clipSize)
    then 1 else 0 in
  let ammo' := clamp 0 (getAmmoMax rules) (int_add ammo ammoUsed) in
  rearm available clipSize w =
  (if clipSize <=? 0 then 0
   else int_sub (int_div ammoUsed clipSize) clipsSaved,
   mkWorld (mkCraftWeapon rules ammo' (ammo' <? getAmmoMax rules)
              (_disabled (self w)))
           (if drawn then snd d else rng w)).
Proof.
  destruct w as [[rules ammo rearming disabled] g]; simpl.
  unfold rearm, draws, overusedAmmo_of, ammoUsed_of, needed_of.
  unfold bind at 1 2; unfold getRules, this_ at 1 2, bind at 2, ret at 1; simpl.
  destruct (clipSize >? 0) eqn:Hc; simpl.
  - destruct (clipSize >? 1) eqn:H1; simpl.
    + destruct (useStatisticalBulletSaving rules); simpl.
      * match goal with |- context [?x >? 0] => destruct (x >? 0) eqn:Ho end;
          simpl.
        -- unfold bind, RNG_generate, ret; simpl.
           destruct (generate 0 (int_sub clipSize 1) g) as [n g']; simpl.
           destruct (n <? _); simpl;
             rewrite setAmmo_run; reflexivity.
        -- unfold bind, ret; simpl. rewrite setAmmo_run. reflexivity.
      * unfold bind, ret; simpl. rewrite setAmmo_run. reflexivity.
    + unfold bind, ret; simpl. rewrite setAmmo_run. reflexivity.
  - unfold bind, ret; simpl. rewrite setAmmo_run. reflexivity.
Qed.

(** The result of [rearm] needs no wrap-around of its own: a quotient
    by a positive clip size is an [int], and a clip is only saved at a
    clip size above 1. *)
Lemma rearm_result_no_wrap (rules : RuleCraftWeapon)
    (ammo available clipSize clipsSaved : Z) :
  0 < clipSize ->
  clipsSaved = 0 \/ (clipsSaved = 1 /\ 1 < clipSize) ->
  int_sub (int_div (ammoUsed_of rules ammo available clipSize) clipSize)
          clipsSaved
  = Z.quot (ammoUsed_of rules ammo available clipSize) clipSize - clipsSaved.
Proof.
  intros Hc Hs. unfold int_sub, int_div.
  assert (Hu : int_range (ammoUsed_of rules ammo available clipSize)).
  { unfold ammoUsed_of. rewrite Z.gtb_ltb.
    destruct (Z.ltb_spec 0 clipSize); [apply wrap_range | lia]. }
  rewrite (wrap_in_range (Z.quot _ _)) by (apply quot_in_range; assumption).
  destruct Hs as [E|[E H1]]; subst clipsSaved.
  - rewrite Z.sub_0_r. apply wrap_in_range, quot_in_range; assumption.
  - apply wrap_in_range, quot_pred_in_range; assumption.
Qed.

(** ** Arithmetic of the clip count *)

(** With a non-negative rearm rate and the ammo within its bounds, the
    truncating quotient the code takes is the floor quotient. *)
Lemma exact_needed_floor (rules : RuleCraftWeapon) (ammo clipSize : Z) :
  0 <= getRearmRate rules -> ammo <= getAmmoMax rules -> 0 < clipSize ->
  exact_needed rules ammo clipSize = spec_needed rules ammo clipSize.
Proof.
  intros Hr Ha Hc. unfold exact_needed, spec_needed.
  apply Z.quot_div_nonneg; lia.
Qed.

Lemma spec_needed_bounds (rules : RuleCraftWeapon) (ammo clipSize : Z) :
  0 <= getRearmRate rules -> ammo <= getAmmoMax rules -> 0 < clipSize ->
  0 <= spec_needed rules ammo clipSize /\
  spec_needed rules ammo clipSize * clipSize
    <= getAmmoMax rules - ammo + clipSize - 1.
Proof.
  intros Hr Ha Hc. unfold spec_needed.
  set (n := Z.min _ _). assert (0 <= n) by (unfold n; lia).
  assert (n <= getAmmoMax rules - ammo + clipSize - 1) by (unfold n; lia).
  split.
  - apply Z.div_pos; lia.
  - pose proof (Z.mul_div_le n clipSize Hc). lia.
Qed.

Lemma exact_ammoUsed_clips (rules : RuleCraftWeapon)
    (ammo available clipSize : Z) :
  0 <= getRearmRate rules -> ammo <= getAmmoMax rules -> 0 < clipSize ->
  exact_ammoUsed rules ammo available clipSize
  = spec_clipsToUse rules ammo available clipSize * clipSize.
Proof.
  intros Hr Ha Hc. unfold exact_ammoUsed, spec_clipsToUse.
  rewrite exact_needed_floor by assumption.
  cmp; try lia; f_equal; lia.
Qed.

Lemma clamp_bounds (lo hi x : Z) :
  lo <= hi -> lo <= clamp lo hi x <= hi.
Proof. intros H. unfold clamp. cmp; lia. Qed.

Lemma clamp_max_min (lo hi x : Z) :
  lo <= hi -> clamp lo hi x = Z.max lo (Z.min hi x).
Proof. intros H. unfold clamp. cmp; lia. Qed.

(** ** Where the code computes with exact integers *)

(** When every exact result fits in an [int], the values the code
    computes are the exact ones. *)
Lemma rearm_exact (rules : RuleCraftWeapon) (ammo available clipSize : Z) :
  Forall int_range (rearm_values rules ammo available clipSize) ->
  (0 < clipSize ->
     needed_of rules ammo clipSize = exact_needed rules ammo clipSize /\
     ammoUsed_of rules ammo available clipSize
     = exact_ammoUsed rules ammo available clipSize /\
     int_add ammo (ammoUsed_of rules ammo available clipSize)
     = ammo + exact_ammoUsed rules ammo available clipSize /\
     overusedAmmo_of rules ammo available clipSize
     = exact_overusedAmmo rules ammo available clipSize /\
     draws rules ammo available clipSize
     = exact_draws rules ammo available clipSize /\
     int_sub clipSize 1 = clipSize - 1) /\
  (clipSize <= 0 ->
     int_add ammo (ammoUsed_of rules ammo available clipSize)
     = ammo + getRearmRate rules).
Proof.
  intros Hall. unfold rearm_values in Hall. split; intros Hc.
  - rewrite (proj2 (Z.gtb_lt clipSize 0) Hc) in Hall.
    repeat match goal with
           | H : Forall _ (_ :: _) |- _ =>
               let Hx := fresh "Hv" in
               apply Forall_cons_iff in H; destruct H as [Hx H]
           end.
    assert (Hn : needed_of rules ammo clipSize
                 = exact_needed rules ammo clipSize).
    { unfold needed_of, exact_needed, int_div, int_sub, int_add.
      rewrite (wrap_in_range (getAmmoMax rules - ammo)) by assumption.
      rewrite (wrap_in_range (getAmmoMax rules - ammo + clipSize))
        by assumption.
      rewrite (wrap_in_range (getAmmoMax rules - ammo + clipSize - 1))
        by assumption.
      apply wrap_in_range. assumption. }
    assert (Hu : ammoUsed_of rules ammo available clipSize
                 = exact_ammoUsed rules ammo available clipSize).
    { assert (Hg : (clipSize >? 0) = true) by (apply Z.gtb_lt; exact Hc).
      pose proof Hv3 as Hv3'. unfold exact_ammoUsed in Hv3'.
      rewrite Hg in Hv3'.
      unfold ammoUsed_of, exact_ammoUsed, int_mul. rewrite Hn, Hg.
      apply wrap_in_range. exact Hv3'. }
    assert (Ha : int_add ammo (ammoUsed_of rules ammo available clipSize)
                 = ammo + exact_ammoUsed rules ammo available clipSize).
    { unfold int_add. rewrite Hu. apply wrap_in_range. assumption. }
    assert (Ho : overusedAmmo_of rules ammo available clipSize
                 = exact_overusedAmmo rules ammo available clipSize).
    { unfold overusedAmmo_of, int_sub. rewrite Ha.
      apply wrap_in_range. assumption. }
    split; [exact Hn|]. split; [exact Hu|]. split; [exact Ha|].
    split; [exact Ho|]. split.
    + unfold draws, exact_draws. rewrite Ho. reflexivity.
    + unfold int_sub. apply wrap_in_range. assumption.
  - rewrite Z.gtb_ltb in Hall. unfold ammoUsed_of, int_add.
    rewrite Z.gtb_ltb.
    destruct (Z.ltb_spec 0 clipSize); [lia|].
    apply Forall_cons_iff in Hall. destruct Hall as [Hv _].
    apply wrap_in_range. assumption.
Qed.

(** [rearm] in closed form on exact integers, where they fit. *)
Lemma rearm_run_exact (available clipSize : Z) (w : World) :
  Forall int_range
    (rearm_values (_rules (self w)) (_ammo (self w)) available clipSize) ->
  let rules := _rules (self w) in
  let ammo := _ammo (self w) in
  let ammoUsed := exact_ammoUsed rules ammo available clipSize in
  let d := generate 0 (clipSize - 1) (rng w) in
  let drawn := exact_draws rules ammo available clipSize in
  let clipsSaved :=
    if drawn && (fst d <? exact_overusedAmmo rules ammo available clipSize)
    then 1 else 0 in
  let ammo' := clamp 0 (getAmmoMax rules) (ammo + ammoUsed) in
  rearm available clipSize w =
  (if clipSize <=? 0 then 0 else Z.quot ammoUsed clipSize - clipsSaved,
   mkWorld (mkCraftWeapon rules ammo' (ammo' <? getAmmoMax rules)
              (_disabled (self w)))
           (if drawn then snd d else rng w)).
Proof.
  intros Hall rules ammo ammoUsed d drawn clipsSaved ammo'.
  pose proof (rearm_run available clipSize w) as Hrun; cbv zeta in Hrun.
  fold rules ammo in Hrun, Hall.
  destruct (rearm_exact rules ammo available clipSize Hall) as [Hpos Hneg].
  destruct (Z.leb_spec clipSize 0) as [Hc|Hc].
  - specialize (Hneg Hc). rewrite Hrun, Hneg.
    assert (Hu : ammoUsed = getRearmRate rules).
    { unfold ammoUsed, exact_ammoUsed. rewrite Z.gtb_ltb.
      destruct (Z.ltb_spec 0 clipSize); [lia | reflexivity]. }
    assert (Hd : draws rules ammo available clipSize = false).
    { unfold draws. rewrite Z.gtb_ltb.
      destruct (Z.ltb_spec 0 clipSize); [lia | reflexivity]. }
    assert (Hd' : drawn = false).
    { unfold drawn, exact_draws. rewrite Z.gtb_ltb.
      destruct (Z.ltb_spec 0 clipSize); [lia | reflexivity]. }
    rewrite Hd, Hd'. unfold ammo'. rewrite Hu. reflexivity.
  - destruct (Hpos Hc) as (Hn & Hu & Ha & Ho & Hd & Hs).
    rewrite Hrun.
    rewrite rearm_result_no_wrap.
    + rewrite Ha, Ho, Hd, Hs, Hu. reflexivity.
    + exact Hc.
    + destruct (draws rules ammo available clipSize) eqn:Hdr; simpl;
        [|left; reflexivity].
      match goal with
      | |- context [if ?b then 1 else 0] => destruct b
      end; [|left; reflexivity].
      right. split; [reflexivity|].
      unfold draws in Hdr.
      repeat (apply andb_prop in Hdr; destruct Hdr as [Hdr ?]).
      apply Z.gtb_lt. assumption.
Qed.

(** The exact results fit when the ammo is within its bounds, the
    rearm rate is not negative and [ammoMax + clipSize] is an [int]. *)
Lemma rearm_values_fit (rules : RuleCraftWeapon)
    (ammo available clipSize : Z) :
  0 <= getRearmRate rules ->
  0 <= ammo <= getAmmoMax rules ->
  0 <= available ->
  0 < clipSize ->
  getAmmoMax rules + clipSize <= INT_MAX ->
  Forall int_range (rearm_values rules ammo available clipSize).
Proof.
  intros Hr [Ha0 Ha] Hav Hpos Hsum.
  unfold rearm_values, exact_overusedAmmo, int_range, INT_MIN, INT_MAX in *.
  rewrite Z.gtb_ltb. destruct (Z.ltb_spec 0 clipSize); [|lia].
  pose proof (spec_needed_bounds rules ammo clipSize Hr Ha Hpos) as [Hn0 Hnb].
  pose proof (exact_needed_floor rules ammo clipSize Hr Ha Hpos) as Hn.
  pose proof (exact_ammoUsed_clips rules ammo available clipSize Hr Ha Hpos)
    as Hu.
  assert (Hct : 0 <= spec_clipsToUse rules ammo available clipSize
                <= spec_needed rules ammo clipSize)
    by (unfold spec_clipsToUse; lia).
  set (k := spec_clipsToUse rules ammo available clipSize) in *.
  set (n := spec_needed rules ammo clipSize) in *.
  assert (Hq : Z.quot (k * clipSize) clipSize = k) by (apply Z.quot_mul; lia).
  assert (Hk : 0 <= k * clipSize <= getAmmoMax rules - ammo + clipSize - 1)
    by nia.
  assert (Hkk : k <= k * clipSize) by nia.
  rewrite Hn, Hu, Hq.
  repeat (apply Forall_cons; [lia|]). apply Forall_nil.
Qed.


(** The exact results fit when no clip is taken, the ammo is within its
    bounds and [ammoMax - ammo + clipSize] is an [int]. *)
Lemma rearm_values_fit_idle (rules : RuleCraftWeapon)
    (ammo available clipSize : Z) :
  0 <= getRearmRate rules ->
  0 <= ammo <= getAmmoMax rules ->
  0 < clipSize ->
  getAmmoMax rules <= INT_MAX ->
  getAmmoMax rules - ammo + clipSize <= INT_MAX ->
  exact_ammoUsed rules ammo available clipSize = 0 ->
  Forall int_range (rearm_values rules ammo available clipSize).
Proof.
  intros Hr [Ha0 Ha] Hpos Hmax Hsum Hu.
  unfold rearm_values, exact_overusedAmmo. rewrite Hu.
  unfold int_range, INT_MIN, INT_MAX in *.
  rewrite Z.gtb_ltb. destruct (Z.ltb_spec 0 clipSize); [|lia].
  pose proof (spec_needed_bounds rules ammo clipSize Hr Ha Hpos) as [Hn0 Hnb].
  pose proof (exact_needed_floor rules ammo clipSize Hr Ha Hpos) as Hn.
  rewrite Hn. rewrite Z.quot_0_l by lia.
  assert (spec_needed rules ammo clipSize
          <= spec_needed rules ammo clipSize * clipSize) by nia.
  repeat (apply Forall_cons; [lia|]). apply Forall_nil.
Qed.

(** ** C1 *)


(** ** C2 *)


(** ** C3 *)

(** C3. [setAmmo newAmmo]: for [newAmmo < 0] the ammo becomes 0 and the
    result is [false]; for [newAmmo > ammoMax] (and [newAmmo] not
    negative, which [ammoMax >= 0] guarantees) the ammo becomes
    [ammoMax] and the result is [true]; otherwise the ammo becomes
    [newAmmo] and the result is [true].  The rearming and disabled flags
    (and the rules and the generator) are left as they were. *)
Theorem setAmmo_clamps (w : World) (newAmmo : Z) :
  let ammoMax := getAmmoMax (_rules (self w)) in
  let result := fst (setAmmo newAmmo w) in
  let w' := snd (setAmmo newAmmo w) in
  (newAmmo < 0 -> _ammo (self w') = 0 /\ result = false) /\
  (0 <= newAmmo -> newAmmo > ammoMax ->
     _ammo (self w') = ammoMax /\ result = true) /\
  (0 <= ammoMax -> newAmmo > ammoMax ->
     _ammo (self w') = ammoMax /\ result = true) /\
  (0 <= newAmmo <= ammoMax ->
     _ammo (self w') = newAmmo /\ result = true) /\
  _rearming (self w') = _rearming (self w) /\
  _disabled (self w') = _disabled (self w) /\
  _rules (self w') = _rules (self w) /\
  rng w' = rng w.
Proof.
  intros ammoMax result w'. unfold result, w'.
  rewrite setAmmo_run; simpl. fold ammoMax. unfold clamp.
  repeat split; try (intros; cmp; simpl; lia || reflexivity).
  all: intros; cmp; simpl; try lia; reflexivity.
Qed.

(** ** C4 *)

(** C4. With [ammoMax >= 0] and [0 <= ammo <= ammoMax], the ammo is
    again within [0, ammoMax] after [setAmmo] with any argument and
    after [rearm] with any [available >= 0] and any [clipSize]; the
    rules are the same object. *)
Theorem ammo_inv_preserved (w : World) :
  0 <= getAmmoMax (_rules (self w)) ->
  ammo_inv (self w) ->
  (forall newAmmo : Z,
      ammo_inv (self (snd (setAmmo newAmmo w))) /\
      _rules (self (snd (setAmmo newAmmo w))) = _rules (self w)) /\
  (forall available clipSize : Z,
      0 <= available ->
      ammo_inv (self (snd (rearm available clipSize w))) /\
      _rules (self (snd (rearm available clipSize w))) = _rules (self w)).
Proof.
  intros Hmax _. split.
  - intros newAmmo. rewrite setAmmo_run; unfold ammo_inv; simpl.
    split; [apply clamp_bounds; assumption | reflexivity].
  - intros available clipSize _.
    pose proof (rearm_run available clipSize w) as Hrun; cbv zeta in Hrun.
    rewrite Hrun; unfold ammo_inv; simpl.
    split; [apply clamp_bounds; assumption | reflexivity].
Qed.

(** ** C5 *)

(** C5, as amended.  [rearm] with [clipSize <= 0], for any state and
    any [available]: the result is 0, the generator is not consulted,
    and the ammo becomes the [int] sum [ammo + rearmRate] clamped into
    [0, ammoMax], whatever [available] and [clipSize] are; that is
    exactly [rearmRate] more, clamped, provided [ammo + rearmRate] fits
    in an [int]. *)
Theorem rearm_without_clips (w : World) (available clipSize : Z) :
  clipSize <= 0 ->
  let rules := _rules (self w) in
  let ammo := _ammo (self w) in
  let result := fst (rearm available clipSize w) in
  let w' := snd (rearm available clipSize w) in
  result = 0 /\
  _ammo (self w')
  = clamp 0 (getAmmoMax rules) (int_add ammo (getRearmRate rules)) /\
  (int_range (ammo + getRearmRate rules) ->
     _ammo (self w')
     = clamp 0 (getAmmoMax rules) (ammo + getRearmRate rules) /\
     (0 <= getAmmoMax rules ->
        _ammo (self w')
        = Z.max 0 (Z.min (getAmmoMax rules) (ammo + getRearmRate rules)))) /\
  rng w' = rng w.
Proof.
  intros Hc rules ammo result w'.
  pose proof (rearm_run available clipSize w) as Hrun; cbv zeta in Hrun.
  fold rules ammo in Hrun. unfold result, w'; rewrite Hrun; simpl; clear Hrun.
  assert (Hu : ammoUsed_of rules ammo available clipSize = getRearmRate rules).
  { unfold ammoUsed_of. rewrite Z.gtb_ltb.
    destruct (Z.ltb_spec 0 clipSize); [lia | reflexivity]. }
  assert (Hd : draws rules ammo available clipSize = false).
  { unfold draws. rewrite Z.gtb_ltb.
    destruct (Z.ltb_spec 0 clipSize); [lia | reflexivity]. }
  rewrite Hu, Hd.
  split; [destruct (Z.leb_spec clipSize 0); [reflexivity | lia]|].
  split; [reflexivity|]. split; [|reflexivity].
  intros Hfit. unfold int_add. rewrite (wrap_in_range _ Hfit).
  split; [reflexivity|]. intros Hm. apply clamp_max_min; assumption.
Qed.

(** ** C6 *)

(** C6. [isRearming] answers [false] on a disabled weapon whatever the
    stored rearming flag, and the stored flag on an enabled weapon; it
    returns the world it received; and [setDisabled] leaves the stored
    rearming flag as it was. *)
Theorem isRearming_masked (w : World) :
  (_disabled (self w) = true -> fst (isRearming w) = false) /\
  (_disabled (self w) = false ->
     fst (isRearming w) = _rearming (self w)) /\
  snd (isRearming w) = w /\
  (forall disabled : bool,
      _rearming (self (snd (setDisabled disabled w))) = _rearming (self w) /\
      _disabled (self (snd (setDisabled disabled w))) = disabled).
Proof.
  unfold isRearming, setDisabled, set_disabled, bind, this_, ret; simpl.
  destruct (_disabled (self w)); simpl; repeat split; intros;
    try reflexivity; discriminate.
Qed.

(** ** C7 *)

(** C7, as amended.  After [rearm], for any [clipSize] and any
    [available >= 0], the stored rearming flag is [ammo < ammoMax] at
    the new ammo.  With [available = 0] and [clipSize > 0], on a state
    within the data model ([0 <= ammo <= ammoMax], [rearmRate >= 0],
    [ammoMax] an [int]) and provided [ammoMax - ammo + clipSize] does
    not exceed [INT_MAX]: the ammo used is 0, the ammo stays, no clip
    is reported used, and rearming is [true] whenever the ammo is below
    [ammoMax]. *)
Theorem rearm_rearming_flag (w : World) (available clipSize : Z) :
  0 <= available ->
  let rules := _rules (self w) in
  let ammo := _ammo (self w) in
  let result := fst (rearm available clipSize w) in
  let w' := snd (rearm available clipSize w) in
  _rearming (self w') = (_ammo (self w') <? getAmmoMax rules) /\
  (available = 0 -> clipSize > 0 ->
   0 <= getRearmRate rules -> ammo_inv (self w) ->
   getAmmoMax rules <= INT_MAX ->
   getAmmoMax rules - ammo + clipSize <= INT_MAX ->
     ammoUsed_of rules ammo available clipSize = 0 /\
     _ammo (self w') = ammo /\
     result = 0 /\
     (ammo < getAmmoMax rules -> _rearming (self w') = true)).
Proof.
  intros Hav rules ammo result w'. split.
  - pose proof (rearm_run available clipSize w) as Hrun; cbv zeta in Hrun.
    unfold w'. rewrite Hrun. reflexivity.
  - intros H0 Hc Hr [Ha0 Ha] Hmax Hfit. fold rules in Ha. fold ammo in Ha0, Ha.
    assert (Hu : exact_ammoUsed rules ammo available clipSize = 0).
    { rewrite exact_ammoUsed_clips by lia.
      pose proof (spec_needed_bounds rules ammo clipSize Hr Ha ltac:(lia)).
      unfold spec_clipsToUse. nia. }
    pose proof (rearm_values_fit_idle rules ammo available clipSize
                  Hr (conj Ha0 Ha) ltac:(lia) Hmax Hfit Hu) as Hall.
    pose proof (rearm_run_exact available clipSize w Hall) as Hrun;
      cbv zeta in Hrun. fold rules ammo in Hrun.
    destruct (rearm_exact rules ammo available clipSize Hall) as [Hex _].
    destruct (Hex ltac:(lia)) as (_ & Heu & _).
    assert (Hd : exact_draws rules ammo available clipSize = false).
    { unfold exact_draws, exact_overusedAmmo. rewrite Hu.
      assert (Ho : (ammo + 0 - getAmmoMax rules >? 0) = false)
        by (rewrite Z.gtb_ltb; apply Z.ltb_ge; lia).
      rewrite Ho. apply andb_false_r. }
    unfold result, w'. rewrite Hrun, Hu, Hd, Z.add_0_r; simpl.
    assert (Hcl : clamp 0 (getAmmoMax rules) ammo = ammo)
      by (unfold clamp; cmp; lia).
    rewrite Hcl. split; [rewrite Heu; exact Hu|]. split; [reflexivity|].
    split; [destruct (clipSize <=? 0); reflexivity|].
    intros Hlt. apply Z.ltb_lt; assumption.
Qed.

(** ** C8 *)

Lemma child_absent (node : YamlNode) (key : string) :
  ~ has_key node key -> child node key = None.
Proof.
  unfold has_key. induction node as [|[k v] rest IH]; simpl; intros H.
  - reflexivity.
  - destruct (String.eqb_spec k key) as [E|E].
    + exfalso. apply H. left. exact E.
    + apply IH. intros Hin. apply H. right. exact Hin.
Qed.


(** [load] in closed form. *)
Lemma load_run (reader : YamlNode) (w : World) :
  load reader w =
  (tt, mkWorld (mkCraftWeapon (_rules (self w))
                  (tryRead_int reader "ammo" (_ammo (self w)))
                  (tryRead_bool reader "rearming" (_rearming (self w)))
                  (tryRead_bool reader "disabled" (_disabled (self w))))
               (rng w)).
Proof. reflexivity. Qed.

(** On an absent key a flag keeps a destination that is [false], under
    either reader. *)
Lemma tryRead_bool_absent (node : YamlNode) (key : string) :
  ~ has_key node key -> tryRead_bool node key false = false.
Proof.
  intros H. unfold tryRead_bool. rewrite (child_absent node key H).
  destruct on_absent; reflexivity.
Qed.

(** C8.  Saving a state whose rearming and disabled flags are [false]
    writes the keys "type" and "ammo" only.  Loading a record without
    the keys "rearming" and "disabled" into a freshly constructed
    weapon yields [false] for both flags, whichever way the reader
    treats an absent key (and into any weapon when the reader stores
    the default).  So saving a freshly constructed state and loading
    the record, into the same object or into another freshly
    constructed one, gives back the ammo and both flags [false]. *)
Theorem save_load_round_trip (w : World) (reader : YamlNode) :
  (_rearming (self w) = false -> _disabled (self w) = false ->
     fst (save w) = [("type"%string, YString (getType (_rules (self w))));
                     ("ammo"%string, YInt (_ammo (self w)))] /\
     ~ has_key (fst (save w)) "rearming" /\
     ~ has_key (fst (save w)) "disabled" /\
     snd (save w) = w) /\
  (forall (rules : RuleCraftWeapon) (ammo : Z),
     ~ has_key reader "rearming" -> ~ has_key reader "disabled" ->
     let fresh := mkWorld (newCraftWeapon rules ammo) (rng w) in
     _rearming (self (snd (load reader fresh))) = false /\
     _disabled (self (snd (load reader fresh))) = false) /\
  (on_absent = StoreDefault ->
   ~ has_key reader "rearming" -> ~ has_key reader "disabled" ->
     _rearming (self (snd (load reader w))) = false /\
     _disabled (self (snd (load reader w))) = false) /\
  (forall (rules : RuleCraftWeapon) (ammo ammo0 : Z),
     let saved := mkWorld (newCraftWeapon rules ammo) (rng w) in
     let fresh := mkWorld (newCraftWeapon rules ammo0) (rng w) in
     self (snd (load (fst (save saved)) saved)) = self saved /\
     self (snd (load (fst (save saved)) fresh)) = self saved).
Proof.
  split; [|split; [|split]].
  - intros Hr Hd. unfold save, bind, this_, ret, write, setAsMap; simpl.
    rewrite Hr, Hd; simpl. unfold has_key; simpl.
    repeat split; try reflexivity; intros [H|[H|[]]]; discriminate.
  - intros rules ammo Hr Hd fresh. unfold fresh. rewrite load_run; simpl.
    rewrite !tryRead_bool_absent by assumption. split; reflexivity.
  - intros Hy Hr Hd. rewrite load_run; simpl.
    unfold tryRead_bool. rewrite !child_absent by assumption.
    rewrite Hy. split; reflexivity.
  - intros rules ammo ammo0 saved fresh. unfold saved, fresh.
    rewrite !load_run. unfold tryRead_int, tryRead_bool; simpl.
    destruct on_absent; split; reflexivity.
Qed.

(** ** C9 *)

(** C9. [getClipsLoaded] gives [floor(ammo / rearmRate)] when no clip
    item with a positive clip size is configured (the quotient being a
    number, that is [rearmRate <> 0]), and [floor(ammo / clipSize)] of
    the clip item when it has a positive clip size, whatever
    [rearmRate] is: 2 for a clip of 15 and 40 rounds.  It returns the
    world it received. *)
Theorem getClipsLoaded_divisor (w : World) :
  let rules := _rules (self w) in
  let ammo := _ammo (self w) in
  ((forall c : RuleItem, getClipItem rules = Some c -> getClipSize c <= 0) ->
   getRearmRate rules <> 0 ->
     fst (getClipsLoaded w) = Some (ammo / getRearmRate rules)) /\
  (forall c : RuleItem,
     getClipItem rules = Some c -> 0 < getClipSize c ->
     fst (getClipsLoaded w) = Some (ammo / getClipSize c)) /\
  (forall c : RuleItem,
     getClipItem rules = Some c -> getClipSize c = 15 -> ammo = 40 ->
     fst (getClipsLoaded w) = Some 2) /\
  snd (getClipsLoaded w) = w.
Proof.
  intros rules ammo.
  unfold getClipsLoaded, getRules, bind, this_, ret; simpl.
  fold rules ammo. unfold floor_double_div.
  split; [|split; [|split]].
  - intros Hno Hr. destruct (getClipItem rules) as [c|].
    + specialize (Hno c eq_refl). rewrite Z.gtb_ltb.
      destruct (Z.ltb_spec 0 (getClipSize c)); [lia|].
      destruct (Z.eqb_spec (getRearmRate rules) 0); [contradiction | reflexivity].
    + destruct (Z.eqb_spec (getRearmRate rules) 0); [contradiction | reflexivity].
  - intros c Hc Hpos. rewrite Hc, Z.gtb_ltb.
    destruct (Z.ltb_spec 0 (getClipSize c)); [|lia].
    destruct (Z.eqb_spec (getClipSize c) 0); [lia | reflexivity].
  - intros c Hc H15 H40. rewrite Hc, H15, H40. reflexivity.
  - reflexivity.
Qed.

(** ** C10 *)

(** C10. Without a clip item of positive clip size, [getClipsLoaded]
    divides by [rearmRate] unguarded: for [rearmRate = 0] there is no
    result, and over the configuration's range [rearmRate >= 0] there is
    one exactly when [rearmRate > 0]. *)
Theorem getClipsLoaded_zero_rate (w : World) :
  (forall c : RuleItem,
     getClipItem (_rules (self w)) = Some c -> getClipSize c <= 0) ->
  let rules := _rules (self w) in
  (getRearmRate rules = 0 -> fst (getClipsLoaded w) = None) /\
  (0 <= getRearmRate rules ->
     ((exists n : Z, fst (getClipsLoaded w) = Some n)
      <-> 0 < getRearmRate rules)).
Proof.
  intros Hno rules.
  assert (E : fst (getClipsLoaded w)
              = floor_double_div (_ammo (self w)) (getRearmRate rules)).
  { unfold getClipsLoaded, getRules, bind, this_, ret; simpl. fold rules.
    fold rules in Hno.
    destruct (getClipItem rules) as [c|]; [|reflexivity].
    specialize (Hno c eq_refl). rewrite Z.gtb_ltb.
    destruct (Z.ltb_spec 0 (getClipSize c)); [lia | reflexivity]. }
  rewrite E. unfold floor_double_div.
  destruct (Z.eqb_spec (getRearmRate rules) 0) as [E0|E0].
  - split; [reflexivity|]. intros _. split; [intros [n Hn]; discriminate | lia].
  - split; [contradiction|]. intros Hr. split; [lia | intros _; eexists; reflexivity].
Qed.

End Properties.

(** ** The arithmetic of [rearm] stays within [int] *)

(** On a state within the data model, with all inputs [int]s and
    [ammoMax + max(clipSize, rearmRate)] representable, every
    intermediate result of [rearm] is representable: no signed overflow
    occurs, and the code computes with exact integers. *)
Lemma rearm_values_in_range (rules : RuleCraftWeapon)
    (ammo available clipSize : Z) :
  rules_wf rules ->
  0 <= ammo <= getAmmoMax rules ->
  0 <= available <= INT_MAX ->
  int_range clipSize ->
  getAmmoMax rules + Z.max clipSize (getRearmRate rules) <= INT_MAX ->
  Forall int_range (rearm_values rules ammo available clipSize).
Proof.
  intros [Hm Hr] [Ha0 Ha] Hav Hc Hsum.
  unfold rearm_values, exact_overusedAmmo, int_range, INT_MIN, INT_MAX in *.
  rewrite Z.gtb_ltb. destruct (Z.ltb_spec 0 clipSize) as [Hpos|Hneg].
  - pose proof (spec_needed_bounds rules ammo clipSize Hr Ha Hpos) as [Hn0 Hnb].
    pose proof (exact_needed_floor rules ammo clipSize Hr Ha Hpos) as Hn.
    pose proof (exact_ammoUsed_clips rules ammo available clipSize Hr Ha Hpos)
      as Hu.
    assert (Hct : 0 <= spec_clipsToUse rules ammo available clipSize
                  <= spec_needed rules ammo clipSize)
      by (unfold spec_clipsToUse; lia).
    set (k := spec_clipsToUse rules ammo available clipSize) in *.
    set (n := spec_needed rules ammo clipSize) in *.
    assert (Hq : Z.quot (k * clipSize) clipSize = k) by (apply Z.quot_mul; lia).
    assert (Hk : 0 <= k * clipSize <= getAmmoMax rules - ammo + clipSize - 1)
      by nia.
    assert (Hkk : k <= k * clipSize) by nia.
    rewrite Hn, Hu, Hq.
    repeat (apply Forall_cons; [lia|]). apply Forall_nil.
  - repeat (apply Forall_cons; [lia|]). apply Forall_nil.
Qed.

Lemma rearm_values_unwrapped (rules : RuleCraftWeapon)
    (ammo available clipSize : Z) :
  rules_wf rules ->
  0 <= ammo <= getAmmoMax rules ->
  0 <= available <= INT_MAX ->
  int_range clipSize ->
  getAmmoMax rules + Z.max clipSize (getRearmRate rules) <= INT_MAX ->
  map wrap (rearm_values rules ammo available clipSize)
  = rearm_values rules ammo available clipSize.
Proof.
  intros Hw Ha Hav Hc Hsum.
  pose proof (rearm_values_in_range rules ammo available clipSize
                Hw Ha Hav Hc Hsum) as Hall.
  induction Hall as [|z l Hz _ IH]; simpl.
  - reflexivity.
  - rewrite (wrap_in_range z Hz), IH. reflexivity.
Qed.

(** ** The floating-point division of [getClipsLoaded] *)

Section DoubleDivision.

(** The rounding of a double-precision operation: monotone, exact on
    the integers a double holds, and off by at most [2^-52] of the
    magnitude, or [2^-52] itself near 0 (53 bits of precision, any
    rounding direction). *)
Variable rnd : Q -> Q.
Hypothesis rnd_monotone : forall x y : Q, (x <= y)%Q -> (rnd x <= rnd y)%Q.
Hypothesis rnd_integer :
  forall n : Z, Z.abs n <= 2 ^ 53 -> (rnd (inject_Z n) == inject_Z n)%Q.
Hypothesis rnd_error :
  forall x : Q, (Qabs (rnd x - x) <= (Qabs x + 1) * (1 # 2 ^ 52))%Q.

Lemma rnd_compat (x y : Q) : (x == y)%Q -> (rnd x == rnd y)%Q.
Proof.
  intros E. apply Qle_antisym; apply rnd_monotone; rewrite E; apply Qle_refl.
Qed.

Lemma floor_rounded_pos (a b : Z) :
  Z.abs a <= 2 ^ 31 -> 0 < b <= 2 ^ 31 ->
  floor_rounded_div rnd a b = a / b.
Proof.
  intros Ha [Hb Hb31]. unfold floor_rounded_div.
  set (x := (inject_Z a / inject_Z b)%Q).
  pose proof (Z.div_mod a b ltac:(lia)) as Hdm.
  pose proof (Z.mod_pos_bound a b Hb) as Hr.
  set (n := a / b) in *.
  assert (HB : (0 < inject_Z b)%Q)
    by (change (inject_Z 0 < inject_Z b)%Q; rewrite <- Zlt_Qlt; exact Hb).
  assert (HX : (x * inject_Z b == inject_Z a)%Q).
  { unfold x. field. intros E. rewrite E in HB. revert HB. apply Qlt_irrefl. }
  assert (Hlo : (inject_Z n * inject_Z b <= inject_Z a)%Q).
  { rewrite <- inject_Z_mult, <- Zle_Qle. lia. }
  assert (Hhi : (inject_Z a <= inject_Z n * inject_Z b + inject_Z b - 1)%Q).
  { change 1%Q with (inject_Z 1).
    rewrite <- inject_Z_mult, <- inject_Z_plus.
    unfold Qminus. rewrite <- inject_Z_opp, <- inject_Z_plus, <- Zle_Qle. lia. }
  assert (Hab : (- (2147483648) <= inject_Z a <= 2147483648)%Q).
  { split.
    - change (- (2147483648))%Q with (inject_Z (- 2 ^ 31)).
      rewrite <- Zle_Qle. lia.
    - change (2147483648)%Q with (inject_Z (2 ^ 31)).
      rewrite <- Zle_Qle. lia. }
  assert (Hn : (inject_Z n <= x)%Q) by nra.
  assert (Hnabs : Z.abs n <= 2 ^ 53).
  { assert (Z.abs n <= Z.abs a); [|lia].
    unfold n. destruct (Z.le_gt_cases 0 a).
    - rewrite !Z.abs_eq; try lia.
      + apply Z.div_le_upper_bound; nia.
      + apply Z.div_pos; lia.
    - assert (a / b < 0) by (apply Z.div_lt_upper_bound; lia).
      assert (a <= a / b); [|lia].
      apply Z.div_le_lower_bound; nia. }
  assert (H1 : (inject_Z n <= rnd x)%Q).
  { rewrite <- (rnd_integer n Hnabs). apply rnd_monotone. exact Hn. }
  assert (H2 : (rnd x < inject_Z (n + 1))%Q).
  { pose proof (rnd_error x) as He.
    rewrite inject_Z_plus. change (inject_Z 1) with 1%Q.
    apply Qabs_Qle_condition in He. destruct He as [_ He].
    change (2 ^ 52)%positive with 4503599627370496%positive in He.
    assert (Hax : (Qabs x * inject_Z b <= 2147483648)%Q).
    { apply Qabs_case; intros; nra. }
    assert (HB31 : (inject_Z b <= 2147483648)%Q).
    { change (2147483648)%Q with (inject_Z (2 ^ 31)).
      rewrite <- Zle_Qle. lia. }
    assert (0 <= Qabs x)%Q by apply Qabs_nonneg.
    nra. }
  apply Z.le_antisymm.
  - apply Z.lt_succ_r. rewrite Zlt_Qlt.
    eapply Qle_lt_trans; [apply Qfloor_le|]. exact H2.
  - rewrite <- (Qfloor_Z n). apply Qfloor_resp_le. exact H1.
Qed.

(** For [int] operands and a divisor other than 0, the floor of the
    rounded quotient is the floor of the exact quotient: what
    [floor_double_div] returns. *)
Lemma floor_rounded_quotient (a b : Z) :
  int_range a -> int_range b -> b <> 0 ->
  floor_double_div a b = Some (floor_rounded_div rnd a b).
Proof.
  unfold int_range, INT_MIN, INT_MAX. intros Ha Hb Hb0.
  unfold floor_double_div.
  destruct (Z.eqb_spec b 0) as [E|_]; [contradiction|]. f_equal.
  destruct (Z.lt_trichotomy b 0) as [Hneg|[E|Hpos]]; [|contradiction|].
  - rewrite <- (Z.div_opp_opp a b Hb0).
    rewrite <- (floor_rounded_pos (- a) (- b)) by lia.
    unfold floor_rounded_div. apply Qfloor_comp, rnd_compat.
    rewrite !inject_Z_opp. field.
    intros E. change 0%Q with (inject_Z 0) in E.
    apply (proj1 (inject_Z_injective b 0)) in E. contradiction.
  - symmetry. apply floor_rounded_pos; lia.
Qed.

End DoubleDivision.

(** The three properties of the rounding hold of the exact quotient
    itself, so [floor_double_div] is the floor of the exact quotient. *)
Lemma floor_exact_quotient (a b : Z) :
  int_range a -> int_range b -> b <> 0 ->
  floor_double_div a b = Some (floor_rounded_div (fun x : Q => x) a b).
Proof.
  apply floor_rounded_quotient.
  - intros x y H. exact H.
  - intros n _. apply Qeq_refl.
  - intros x. setoid_replace (x - x)%Q with 0%Q by ring.
    simpl. apply Qmult_le_0_compat; [|discriminate].
    pose proof (Qabs_nonneg x). lra.
Qed.


(** The floor quotient of an [int] by a positive number is an [int]:
    there [floor_double_div] and the conversion to [int] agree. *)
Lemma div_pos_in_range (a b : Z) :
  int_range a -> 0 < b -> int_range (a / b).
Proof.
  unfold int_range, INT_MIN, INT_MAX. intros Ha Hb.
  pose proof (Z.div_mod a b ltac:(lia)).
  pose proof (Z.mod_pos_bound a b Hb).
  split.
  - apply Z.div_le_lower_bound; [lia | nia].
  - destruct (Z.le_gt_cases 0 a).
    + assert (a / b <= a) by (apply Z.div_le_upper_bound; nia). lia.
    + assert (a / b < 0) by (apply Z.div_lt_upper_bound; lia). lia.
Qed.

(** ** A rounding onto a grid *)

Lemma round_down_52_monotone (x y : Q) :
  (x <= y)%Q -> (round_down_52 x <= round_down_52 y)%Q.
Proof.
  intros H. unfold round_down_52.
  apply Qmult_le_compat_r.
  - rewrite <- Zle_Qle. apply Qfloor_resp_le.
    apply Qmult_le_compat_r; [exact H | discriminate].
  - apply Qinv_le_0_compat. discriminate.
Qed.

Lemma round_down_52_integer (n : Z) :
  (round_down_52 (inject_Z n) == inject_Z n)%Q.
Proof.
  unfold round_down_52.
  rewrite <- inject_Z_mult, Qfloor_Z, inject_Z_mult.
  field. discriminate.
Qed.

Lemma round_down_52_error (x : Q) :
  (Qabs (round_down_52 x - x) <= (Qabs x + 1) * (1 # 2 ^ 52))%Q.
Proof.
  unfold round_down_52.
  set (s := inject_Z (2 ^ 52)).
  pose proof (Qfloor_le (x * s)) as Hlo.
  pose proof (Qlt_floor (x * s)) as Hhi.
  rewrite inject_Z_plus in Hhi. change (inject_Z 1) with 1%Q in Hhi.
  set (f := inject_Z (Qfloor (x * s))) in *.
  assert (Hs : (s == 4503599627370496)%Q) by reflexivity.
  assert (Hf : (f / s * s == f)%Q) by (field; discriminate).
  change (2 ^ 52)%positive with 4503599627370496%positive.
  pose proof (Qabs_nonneg x) as Hx.
  apply Qabs_Qle_condition. split.
  - set (q := (f / s)%Q) in *. nra.
  - set (q := (f / s)%Q) in *. nra.
Qed.
(** * The model on concrete inputs *)


(** The scenarios of the specification. *)

Example rearm_empty_cannon :
  rearm 5 10 (world_of (cannon 60 20 true None) 0 false false [3])
  = (2, world_of (cannon 60 20 true None) 20 true false [3]).
Proof. reflexivity. Qed.

Example rearm_overflowing_clip_saved :
  rearm 5 10 (world_of (cannon 55 20 true None) 40 true false [3; 7])
  = (1, world_of (cannon 55 20 true None) 55 false false [7]).
Proof. reflexivity. Qed.

Example rearm_overflowing_clip_used :
  rearm 5 10 (world_of (cannon 55 20 true None) 40 true false [7; 3])
  = (2, world_of (cannon 55 20 true None) 55 false false [3]).
Proof. reflexivity. Qed.

Example rearm_saving_disabled :
  rearm 5 10 (world_of (cannon 55 20 false None) 40 true false [3; 7])
  = (2, world_of (cannon 55 20 false None) 55 false false [3; 7]).
Proof. reflexivity. Qed.

Example setAmmo_negative :
  setAmmo (-3) (world_of (cannon 60 20 true None) 25 true false [3])
  = (false, world_of (cannon 60 20 true None) 0 true false [3]).
Proof. reflexivity. Qed.

Example setAmmo_above_max :
  setAmmo 100 (world_of (cannon 60 20 true None) 25 true false [3])
  = (true, world_of (cannon 60 20 true None) 60 true false [3]).
Proof. reflexivity. Qed.

Example setAmmo_within :
  setAmmo 30 (world_of (cannon 60 20 true None) 25 true false [3])
  = (true, world_of (cannon 60 20 true None) 30 true false [3]).
Proof. reflexivity. Qed.

Example isRearming_disabled :
  fst (isRearming (world_of (cannon 60 20 true None) 25 true true [3]))
  = false.
Proof. reflexivity. Qed.

Example getClipsLoaded_rate_of_7 :
  fst (getClipsLoaded (world_of (cannon 100 7 false None) 40 false false []))
  = Some 5.
Proof. reflexivity. Qed.

Example getClipsLoaded_clip_of_15 :
  fst (getClipsLoaded
         (world_of (cannon 100 7 false (Some (mkRuleItem 15))) 40 false false []))
  = Some 2.
Proof. reflexivity. Qed.

Example save_fresh_30 :
  fst (save (mkWorld (newCraftWeapon (cannon 60 20 false None) 30) []))
  = [("type"%string, YString "STR_CANNON_UC"); ("ammo"%string, YInt 30)].
Proof. reflexivity. Qed.

Example rearm_wraps_around :
  rearm 5 0 (world_of (huge_cannon 20 true) 2147483642 false false [3])
  = (0, world_of (huge_cannon 20 true) 0 true false [3]).
Proof. vm_compute. reflexivity. Qed.

(** Where the exact [overusedAmmo] is far below 0 but the [int] the
    code computes is 9, the generator is consulted. *)
Example rearm_draws_on_wrapped_overuse :
  overusedAmmo_of (huge_cannon 20 true) 0 5 10 = 9 /\
  rearm 5 10 (world_of (huge_cannon 20 true) 0 false false [3; 7])
  = (-214748365, world_of (huge_cannon 20 true) 0 true false [7]).
Proof. split; vm_compute; reflexivity. Qed.

(** The two readers differ only where a key is absent and the
    destination is not what the default is. *)
Example load_absent_flag :
  let w := world_of (cannon 60 20 false None) 0 true true [] in
  _rearming (self (snd (load (Y := KeepingReader) [] w))) = true /\
  _rearming (self (snd (load (Y := DefaultingReader) [] w))) = false.
Proof. split; reflexivity. Qed.

Example load_into_fresh {Y : YamlReader} :
  self (snd (load [("ammo"%string, YInt 30)]
               (mkWorld (newCraftWeapon (cannon 60 20 false None) 0) [3])))
  = newCraftWeapon (cannon 60 20 false None) 30.
Proof. destruct Y as [[|]]; reflexivity. Qed.

(** A negative rearm rate lies outside the configuration's range: there
    the truncating quotient of the code is not the floor quotient. *)
Example needed_of_negative_rate :
  needed_of (cannon 60 (-5) false None) 0 10 = 0 /\
  spec_needed (cannon 60 (-5) false None) 0 10 = -1.
Proof. split; reflexivity. Qed.




Lemma ammo_inv_preserved_witness :
  let w := world_of (cannon 55 20 true None) 40 true false [3; 7] in
  (0 <= getAmmoMax (_rules (self w)) /\ ammo_inv (self w) /\ 0 <= 5) /\
  ammo_inv (self (snd (setAmmo 100 w))) /\
  ammo_inv (self (snd (setAmmo (-7) w))) /\
  ammo_inv (self (snd (rearm 5 10 w))) /\
  ammo_inv (self (snd (rearm 5 0 w))).
Proof.
  intros w.
  assert (H1 : 0 <= getAmmoMax (_rules (self w))) by (simpl; lia).
  assert (H2 : ammo_inv (self w)) by (unfold ammo_inv; simpl; lia).
  assert (H3 : 0 <= 5) by lia.
  split; [repeat split; assumption|].
  destruct (ammo_inv_preserved w H1 H2) as [Hset Hrearm].
  split; [exact (proj1 (Hset 100))|].
  split; [exact (proj1 (Hset (-7)))|].
  split; [exact (proj1 (Hrearm 5 10 H3)) | exact (proj1 (Hrearm 5 0 H3))].
Defined.

Lemma rearm_without_clips_witness :
  let w := world_of (cannon 55 20 true None) 40 true false [3; 7] in
  0 <= 0 /\
  fst (rearm 5 0 w) = 0 /\
  _ammo (self (snd (rearm 5 0 w))) = clamp 0 55 (40 + 20) /\
  rng (snd (rearm 5 0 w)) = [3; 7].
Proof.
  intros w.
  assert (H0 : 0 <= 0) by lia.
  split; [exact H0|].
  destruct (rearm_without_clips w 5 0 H0) as (Hres & _ & Hfit & Hrng).
  assert (Hi : int_range (_ammo (self w) + getRearmRate (_rules (self w))))
    by (unfold int_range, INT_MIN, INT_MAX; simpl; lia).
  split; [exact Hres|]. split; [exact (proj1 (Hfit Hi)) | exact Hrng].
Defined.

(** C5, as stated, fails at the top of the [int] range: the sum
    [ammo + rearmRate] wraps around to a negative number, which
    [setAmmo] clamps to 0, where [ammo + rearmRate] clamped into
    [0, ammoMax] is [ammoMax]. *)
Lemma rearm_without_clips_counterexample :
  let w := world_of (huge_cannon 20 true) 2147483642 true false [3; 7] in
  0 <= 0 /\
  clamp 0 INT_MAX (2147483642 + 20) = INT_MAX /\
  _ammo (self (snd (rearm 5 0 w))) = 0 /\
  _rearming (self (snd (rearm 5 0 w))) = true /\
  ~ (_ammo (self (snd (rearm 5 0 w)))
     = clamp 0 (getAmmoMax (_rules (self w)))
         (_ammo (self w) + getRearmRate (_rules (self w)))).
Proof.
  intros w. split; [lia|].
  repeat (split; [vm_compute; reflexivity|]).
  vm_compute. discriminate.
Qed.

Lemma rearm_rearming_flag_witness :
  let w := world_of (cannon 55 20 true None) 40 false false [3; 7] in
  (0 <= 0 /\ 10 > 0 /\ 0 <= getRearmRate (_rules (self w))
   /\ ammo_inv (self w) /\ 55 <= INT_MAX /\ 55 - 40 + 10 <= INT_MAX
   /\ 40 < 55) /\
  _rearming (self (snd (rearm 0 10 w)))
    = (_ammo (self (snd (rearm 0 10 w))) <? 55) /\
  _ammo (self (snd (rearm 0 10 w))) = 40 /\
  fst (rearm 0 10 w) = 0 /\
  _rearming (self (snd (rearm 0 10 w))) = true.
Proof.
  intros w.
  assert (H1 : 0 <= 0) by lia.
  assert (H2 : 10 > 0) by lia.
  assert (H3 : 0 <= getRearmRate (_rules (self w))) by (simpl; lia).
  assert (H4 : ammo_inv (self w)) by (unfold ammo_inv; simpl; lia).
  assert (H5 : 40 < 55) by lia.
  assert (H6 : getAmmoMax (_rules (self w)) <= INT_MAX)
    by (unfold INT_MAX; simpl; lia).
  assert (H7 : getAmmoMax (_rules (self w)) - _ammo (self w) + 10
               <= INT_MAX) by (unfold INT_MAX; simpl; lia).
  split; [repeat split; assumption|].
  destruct (rearm_rearming_flag w 0 10 H1) as [Hflag Hzero].
  destruct (Hzero eq_refl H2 H3 H4 H6 H7) as (_ & Hammo & Hres & Hre).
  split; [exact Hflag|]. split; [exact Hammo|].
  split; [exact Hres | exact (Hre H5)].
Defined.

(** C7, as stated, fails in its second half at the top of the [int]
    range: with no clip available the sum [ammoMax - ammo + clipSize]
    wraps around, the ammo used is negative instead of 0, the ammo
    drops to 0 and a negative clip count is returned. *)
Lemma rearm_rearming_flag_counterexample :
  let w := world_of (huge_cannon 20 false) 100 true false [3; 7] in
  (0 <= 0 /\ 200 > 0 /\ 0 <= getRearmRate (_rules (self w))
   /\ ammo_inv (self w)) /\
  ammoUsed_of (huge_cannon 20 false) 100 0 200 = -2147483400 /\
  _ammo (self (snd (rearm 0 200 w))) = 0 /\
  fst (rearm 0 200 w) = -10737417 /\
  ~ (ammoUsed_of (huge_cannon 20 false) 100 0 200 = 0) /\
  ~ (_ammo (self (snd (rearm 0 200 w))) = _ammo (self w)).
Proof.
  intros w.
  split; [repeat split; vm_compute; first [reflexivity | discriminate]|].
  repeat (split; [vm_compute; reflexivity|]).
  split; vm_compute; discriminate.
Qed.

Lemma getClipsLoaded_zero_rate_witness :
  let w := world_of (cannon 60 0 false (Some (mkRuleItem 0))) 40 false false [] in
  (forall c : RuleItem,
      getClipItem (_rules (self w)) = Some c -> getClipSize c <= 0) /\
  getRearmRate (_rules (self w)) = 0 /\
  fst (getClipsLoaded w) = None.
Proof.
  intros w.
  assert (Hno : forall c : RuleItem,
             getClipItem (_rules (self w)) = Some c -> getClipSize c <= 0).
  { intros c Hc. simpl in Hc. injection Hc as <-. simpl. lia. }
  split; [exact Hno|]. split; [reflexivity|].
  exact (proj1 (getClipsLoaded_zero_rate w Hno) eq_refl).
Defined.

(** * Further properties of the rearm cycle *)

Section RearmCycle.
Context {R : RNG}.

(** [rearm] on a state within the data model and within [int], in
    terms of the clips taken: the closed form of [rearm_run_exact] with
    the arithmetic done. *)
Lemma rearm_by_clips (w : World) (available clipSize : Z) :
  0 <= getRearmRate (_rules (self w)) ->
  ammo_inv (self w) ->
  0 <= available ->
  0 < clipSize ->
  getAmmoMax (_rules (self w)) + clipSize <= INT_MAX ->
  let rules := _rules (self w) in
  let ammo := _ammo (self w) in
  let k := spec_clipsToUse rules ammo available clipSize in
  let d := generate 0 (clipSize - 1) (rng w) in
  let drawn := exact_draws rules ammo available clipSize in
  let saved := if drawn && (fst d <? ammo + k * clipSize - getAmmoMax rules)
               then 1 else 0 in
  let ammo' := Z.min (getAmmoMax rules) (ammo + k * clipSize) in
  rearm available clipSize w
  = (k - saved,
     mkWorld (mkCraftWeapon rules ammo' (ammo' <? getAmmoMax rules)
                (_disabled (self w)))
             (if drawn then snd d else rng w)) /\
  0 <= k <= available /\
  k * clipSize <= getRearmRate rules /\
  k * clipSize <= getAmmoMax rules - ammo + clipSize - 1 /\
  (drawn = true -> getAmmoMax rules < ammo + k * clipSize) /\
  ammoUsed_of rules ammo available clipSize = k * clipSize /\
  overusedAmmo_of rules ammo available clipSize
  = ammo + k * clipSize - getAmmoMax rules.
Proof.
  intros Hr [Ha0 Ha] Hav Hc Hfit rules ammo k d drawn saved ammo'.
  fold rules in Hr, Ha, Hfit. fold ammo in Ha0, Ha.
  pose proof (rearm_values_fit rules ammo available clipSize
                Hr (conj Ha0 Ha) Hav Hc Hfit) as Hall.
  pose proof (rearm_run_exact available clipSize w Hall) as Hrun;
    cbv zeta in Hrun.
  fold rules ammo d drawn in Hrun.
  destruct (rearm_exact rules ammo available clipSize Hall) as [Hex _].
  destruct (Hex Hc) as (_ & Heu & _ & Heo & _).
  pose proof (exact_ammoUsed_clips rules ammo available clipSize Hr Ha Hc)
    as Hu.
  fold k in Hu.
  pose proof (spec_needed_bounds rules ammo clipSize Hr Ha Hc) as [Hn0 Hnb].
  assert (Hk : 0 <= k <= available)
    by (unfold k, spec_clipsToUse; lia).
  assert (Hkn : k <= spec_needed rules ammo clipSize)
    by (unfold k, spec_clipsToUse; lia).
  assert (Hnr : spec_needed rules ammo clipSize * clipSize
                <= getRearmRate rules).
  { unfold spec_needed. set (n := Z.min _ _).
    pose proof (Z.mul_div_le n clipSize Hc). unfold n in *. lia. }
  assert (Hq : Z.quot (k * clipSize) clipSize = k)
    by (apply Z.quot_mul; lia).
  assert (Hcl : clamp 0 (getAmmoMax rules) (ammo + k * clipSize) = ammo').
  { unfold clamp, ammo'. assert (0 <= k * clipSize) by nia. cmp; lia. }
  split; [|split; [exact Hk | split; [nia | split; [nia | split; [|split]]]]].
  - rewrite Hrun. unfold exact_overusedAmmo. rewrite Hu, Hq, Hcl.
    destruct (Z.leb_spec clipSize 0); [lia | reflexivity].
  - unfold drawn, exact_draws, exact_overusedAmmo. rewrite Hu. intros Hd.
    apply andb_prop in Hd as [_ Ho]. apply Z.gtb_lt in Ho. lia.
  - rewrite Heu. exact Hu.
  - rewrite Heo. unfold exact_overusedAmmo. rewrite Hu. reflexivity.
Qed.

(** X1. Within the data model and with
    [ammoMax + max(clipSize, rearmRate)] not above [INT_MAX], a call of
    [rearm] never lowers the ammo and never raises it by more than
    [rearmRate], whatever [clipSize] and [available >= 0] are. *)
Theorem rearm_gain_bounded (w : World) (available clipSize : Z) :
  0 <= getRearmRate (_rules (self w)) ->
  ammo_inv (self w) ->
  0 <= available ->
  getAmmoMax (_rules (self w))
    + Z.max clipSize (getRearmRate (_rules (self w))) <= INT_MAX ->
  let ammo' := _ammo (self (snd (rearm available clipSize w))) in
  _ammo (self w) <= ammo' <= _ammo (self w) + getRearmRate (_rules (self w)).
Proof.
  intros Hr Ha Hav Hfit ammo'. unfold ammo'.
  destruct (Z.lt_ge_cases 0 clipSize) as [Hc|Hc].
  - destruct (rearm_by_clips w available clipSize Hr Ha Hav Hc ltac:(lia))
      as (Hrun & Hk & Hkr & _). cbv zeta in Hrun.
    rewrite Hrun; simpl. destruct Ha as [Ha0 Ha]. nia.
  - pose proof (rearm_run available clipSize w) as Hrun; cbv zeta in Hrun.
    rewrite Hrun; simpl. destruct Ha as [Ha0 Ha].
    assert (Hu : ammoUsed_of (_rules (self w)) (_ammo (self w))
                   available clipSize = getRearmRate (_rules (self w))).
    { unfold ammoUsed_of. rewrite Z.gtb_ltb.
      destruct (Z.ltb_spec 0 clipSize); [lia | reflexivity]. }
    rewrite Hu. unfold int_add. rewrite wrap_in_range
      by (unfold int_range, INT_MIN, INT_MAX in *; lia).
    unfold clamp. cmp; lia.
Qed.

(** X2. A rearm rate below the clip size stalls the weapon: with
    [0 <= rearmRate < clipSize] (and [ammoMax - ammo + clipSize] an
    [int]) no clip is taken however many are available, the ammo stays,
    the generator is not consulted, and the weapon keeps rearming for as
    long as it is below [ammoMax]. *)
Theorem rearm_stalls_below_clip_size (w : World) (available clipSize : Z) :
  0 <= getRearmRate (_rules (self w)) < clipSize ->
  ammo_inv (self w) ->
  0 <= available ->
  getAmmoMax (_rules (self w)) <= INT_MAX ->
  getAmmoMax (_rules (self w)) - _ammo (self w) + clipSize <= INT_MAX ->
  fst (rearm available clipSize w) = 0 /\
  _ammo (self (snd (rearm available clipSize w))) = _ammo (self w) /\
  rng (snd (rearm available clipSize w)) = rng w /\
  _rearming (self (snd (rearm available clipSize w)))
  = (_ammo (self w) <? getAmmoMax (_rules (self w))).
Proof.
  intros [Hr Hlt] [Ha0 Ha] Hav Hmax Hfit.
  set (rules := _rules (self w)) in *. set (ammo := _ammo (self w)) in *.
  assert (Hc : 0 < clipSize) by lia.
  assert (Hu : exact_ammoUsed rules ammo available clipSize = 0).
  { rewrite exact_ammoUsed_clips by lia.
    pose proof (spec_needed_bounds rules ammo clipSize Hr Ha Hc) as [Hn0 _].
    assert (Hn : spec_needed rules ammo clipSize = 0).
    { unfold spec_needed. apply Z.div_small. lia. }
    unfold spec_clipsToUse. rewrite Hn. lia. }
  pose proof (rearm_values_fit_idle rules ammo available clipSize
                Hr (conj Ha0 Ha) Hc Hmax Hfit Hu) as Hall.
  pose proof (rearm_run_exact available clipSize w Hall) as Hrun;
    cbv zeta in Hrun. fold rules ammo in Hrun.
  assert (Hd : exact_draws rules ammo available clipSize = false).
  { unfold exact_draws, exact_overusedAmmo. rewrite Hu.
    assert (Ho : (ammo + 0 - getAmmoMax rules >? 0) = false)
      by (rewrite Z.gtb_ltb; apply Z.ltb_ge; lia).
    rewrite Ho. apply andb_false_r. }
  rewrite Hrun, Hu, Hd, Z.add_0_r; simpl.
  assert (Hcl : clamp 0 (getAmmoMax rules) ammo = ammo)
    by (unfold clamp; cmp; lia).
  rewrite Hcl.
  split; [destruct (clipSize <=? 0); reflexivity|].
  repeat split; reflexivity.
Qed.

(** X3. A rearm rate of at least one clip makes progress: below
    [ammoMax], with at least one clip available (and
    [ammoMax + clipSize] not above [INT_MAX]), the ammo grows by a full
    clip or reaches [ammoMax]. *)
Theorem rearm_progress (w : World) (available clipSize : Z) :
  0 < clipSize <= getRearmRate (_rules (self w)) ->
  ammo_inv (self w) ->
  1 <= available ->
  _ammo (self w) < getAmmoMax (_rules (self w)) ->
  getAmmoMax (_rules (self w)) + clipSize <= INT_MAX ->
  let ammo' := _ammo (self (snd (rearm available clipSize w))) in
  Z.min (getAmmoMax (_rules (self w))) (_ammo (self w) + clipSize) <= ammo' /\
  _ammo (self w) < ammo'.
Proof.
  intros [Hc Hr] Ha Hav Hlt Hfit ammo'. unfold ammo'.
  destruct (rearm_by_clips w available clipSize ltac:(lia) Ha ltac:(lia)
              Hc Hfit)
    as (Hrun & Hk & _). cbv zeta in Hrun, Hk.
  set (k := spec_clipsToUse _ _ _ _) in *.
  assert (Hk1 : 1 <= k).
  { unfold k, spec_clipsToUse, spec_needed.
    apply Z.min_glb; [|lia].
    apply Z.div_le_lower_bound; lia. }
  rewrite Hrun; simpl. nia.
Qed.

(** X4. Within the data model and with [ammoMax + clipSize] not
    above [INT_MAX], the ammo thrown away by a call is less than one
    clip, and the clips reported differ from the ammo gained by less
    than one clip: [result * clipSize - clipSize < gained <
    result * clipSize + clipSize]. *)
Theorem rearm_clips_match_gain (w : World) (available clipSize : Z) :
  0 <= getRearmRate (_rules (self w)) ->
  ammo_inv (self w) ->
  0 <= available ->
  0 < clipSize ->
  getAmmoMax (_rules (self w)) + clipSize <= INT_MAX ->
  let result := fst (rearm available clipSize w) in
  let gained := _ammo (self (snd (rearm available clipSize w)))
                - _ammo (self w) in
  overusedAmmo_of (_rules (self w)) (_ammo (self w)) available clipSize
    <= clipSize - 1 /\
  result * clipSize - clipSize < gained < result * clipSize + clipSize /\
  (useStatisticalBulletSaving (_rules (self w)) = false ->
     gained <= result * clipSize).
Proof.
  intros Hr Ha Hav Hc Hfit result gained. unfold result, gained.
  destruct (rearm_by_clips w available clipSize Hr Ha Hav Hc Hfit)
    as (Hrun & Hk & Hkr & Hkm & Hd & _ & Ho).
  cbv zeta in Hrun, Hk, Hkr, Hkm, Hd, Ho.
  set (k := spec_clipsToUse _ _ _ _) in *.
  destruct Ha as [Ha0 Ha].
  split; [rewrite Ho; lia|].
  rewrite Hrun; simpl.
  destruct (exact_draws _ _ _ _) eqn:Hdr; simpl.
  - specialize (Hd eq_refl).
    split.
    + destruct (_ <? _); nia.
    + intros Hoff. unfold exact_draws in Hdr. rewrite Hoff in Hdr.
      rewrite andb_false_r in Hdr. discriminate.
  - split; [nia|]. intros _. nia.
Qed.


(** X6. The rounding-up correction: within the data model and with
    [ammoMax + clipSize] not above [INT_MAX], the clips [rearm] asks for
    are the smaller of the whole clips in [rearmRate] and the clips
    needed to fill the weapon, rounded up; with statistical bullet
    saving off, [rearm] returns that number capped by [available]. *)
Theorem needed_of_rounds_up (w : World) (available clipSize : Z) :
  0 <= getRearmRate (_rules (self w)) ->
  ammo_inv (self w) ->
  0 <= available ->
  0 < clipSize ->
  getAmmoMax (_rules (self w)) + clipSize <= INT_MAX ->
  let rules := _rules (self w) in
  let missing := getAmmoMax rules - _ammo (self w) in
  let toFill := (missing + clipSize - 1) / clipSize in
  let needed := Z.min (getRearmRate rules / clipSize) toFill in
  needed_of rules (_ammo (self w)) clipSize = needed /\
  missing <= toFill * clipSize < missing + clipSize /\
  (useStatisticalBulletSaving rules = false ->
     fst (rearm available clipSize w) = Z.min needed available).
Proof.
  intros Hr Ha Hav Hc Hfit rules missing toFill needed.
  destruct (rearm_by_clips w available clipSize Hr Ha Hav Hc Hfit)
    as (Hrun & _). cbv zeta in Hrun.
  destruct Ha as [Ha0 Ha]. fold rules in Hr, Ha, Hfit, Hrun.
  set (ammo := _ammo (self w)) in *.
  pose proof (rearm_values_fit rules ammo available clipSize
                Hr (conj Ha0 Ha) Hav Hc Hfit) as Hall.
  destruct (rearm_exact rules ammo available clipSize Hall) as [Hex _].
  destruct (Hex Hc) as (Hen & _).
  assert (Hs : spec_needed rules ammo clipSize = needed).
  { unfold spec_needed, needed, toFill. fold missing.
    destruct (Z.le_ge_cases (getRearmRate rules) (missing + clipSize - 1))
      as [H|H].
    - rewrite Z.min_l by assumption.
      rewrite Z.min_l; [reflexivity|]. apply Z.div_le_mono; lia.
    - rewrite Z.min_r by assumption.
      rewrite Z.min_r; [reflexivity|]. apply Z.div_le_mono; lia. }
  split; [|split].
  - rewrite Hen, exact_needed_floor by assumption. exact Hs.
  - unfold toFill.
    pose proof (Z.div_mod (missing + clipSize - 1) clipSize ltac:(lia)).
    pose proof (Z.mod_pos_bound (missing + clipSize - 1) clipSize Hc).
    lia.
  - intros Hoff. rewrite Hrun; simpl.
    assert (Hd : exact_draws rules ammo available clipSize = false).
    { unfold exact_draws. rewrite Hoff, andb_false_r. reflexivity. }
    rewrite Hd; simpl. unfold spec_clipsToUse. rewrite Hs. lia.
Qed.


(** X8. After [rearm], with [ammoMax >= 0], the stored rearming flag is
    off exactly when the weapon is full, and [isRearming] answers
    [true] exactly when the weapon is enabled and not full; the
    disabled flag and the rules are those before the call. *)
Theorem rearm_done_iff_full (w : World) (available clipSize : Z) :
  0 <= getAmmoMax (_rules (self w)) ->
  let w' := snd (rearm available clipSize w) in
  (_rearming (self w') = false
   <-> _ammo (self w') = getAmmoMax (_rules (self w))) /\
  (fst (isRearming w') = true
   <-> _disabled (self w) = false
       /\ _ammo (self w') < getAmmoMax (_rules (self w))) /\
  _disabled (self w') = _disabled (self w) /\
  _rules (self w') = _rules (self w).
Proof.
  intros Hm w'. unfold w'.
  pose proof (rearm_run available clipSize w) as Hrun; cbv zeta in Hrun.
  rewrite Hrun. unfold isRearming, bind, this_, ret; simpl.
  set (a := clamp 0 _ _).
  assert (Hb : 0 <= a <= getAmmoMax (_rules (self w)))
    by (apply clamp_bounds; assumption).
  split; [|split; [|split; reflexivity]].
  - destruct (Z.ltb_spec a (getAmmoMax (_rules (self w))));
      split; intros; try lia; try discriminate; reflexivity.
  - destruct (_disabled (self w)); simpl.
    + split; [discriminate | intros [? _]; discriminate].
    + rewrite Z.ltb_lt. split; [intros; split; [reflexivity | assumption]
                               | intros [_ ?]; assumption].
Qed.

End RearmCycle.

(** * Further properties of persistence, setters and clip counting *)

Section Persistence.
Context {R : RNG} {Y : YamlReader}.

(** [save] in closed form. *)
Lemma save_run (w : World) :
  save w =
  ([("type"%string, YString (getType (_rules (self w))));
    ("ammo"%string, YInt (_ammo (self w)))]
   ++ (if _rearming (self w)
       then [("rearming"%string, YBool true)] else [])
   ++ (if _disabled (self w)
       then [("disabled"%string, YBool true)] else []),
   w).
Proof.
  unfold save, bind, this_, ret, write, setAsMap; simpl.
  destruct (_rearming (self w)), (_disabled (self w)); reflexivity.
Qed.

(** X9. What [save] writes: always the keys "type" and "ammo", holding
    the rules' type and the ammo; the key "rearming" exactly when the
    flag is set, and likewise "disabled"; no key twice.  The world is
    left as it was. *)
Theorem save_keys (w : World) :
  let node := fst (save w) in
  child node "type" = Some (YString (getType (_rules (self w)))) /\
  child node "ammo" = Some (YInt (_ammo (self w))) /\
  (has_key node "rearming" <-> _rearming (self w) = true) /\
  (has_key node "disabled" <-> _disabled (self w) = true) /\
  NoDup (map fst node) /\
  snd (save w) = w.
Proof.
  intros node. unfold node. rewrite save_run; simpl.
  unfold has_key.
  destruct (_rearming (self w)), (_disabled (self w)); simpl;
    (split; [reflexivity|]); (split; [reflexivity|]);
    (split; [split; [intros H; try reflexivity;
                     repeat (destruct H as [H|H]; try discriminate H);
                     contradiction
                    | intros H; try discriminate H; auto]|]);
    (split; [split; [intros H; try reflexivity;
                     repeat (destruct H as [H|H]; try discriminate H);
                     contradiction
                    | intros H; try discriminate H; auto]|]);
    (split; [|reflexivity]);
    repeat (apply NoDup_cons;
            [simpl; intros H;
             repeat (destruct H as [H|H]; try discriminate H); contradiction|]);
    apply NoDup_nil.
Qed.

(** X10. Round trip: loading what [save] wrote for any state, flags set
    or not, into a freshly constructed weapon of the same rules gives
    back the saved weapon, whatever ammo the fresh one was constructed
    with. *)
Theorem save_load_restores (w : World) (ammo0 : Z) (g : RngState) :
  let fresh := mkWorld (newCraftWeapon (_rules (self w)) ammo0) g in
  self (snd (load (fst (save w)) fresh)) = self w /\
  rng (snd (load (fst (save w)) fresh)) = g.
Proof.
  intros fresh. unfold fresh. rewrite load_run, save_run; simpl.
  destruct w as [[rules ammo rearming disabled] g0]; simpl.
  unfold tryRead_int, tryRead_bool.
  destruct rearming, disabled; simpl; destruct on_absent;
    split; reflexivity.
Qed.

(** X12. Loading the same record a second time changes nothing more,
    and [load] never touches the rules or the generator. *)
Theorem load_idempotent (reader : YamlNode) (w : World) :
  snd (load reader (snd (load reader w))) = snd (load reader w) /\
  _rules (self (snd (load reader w))) = _rules (self w) /\
  rng (snd (load reader w)) = rng w.
Proof.
  rewrite !load_run; simpl. unfold tryRead_int, tryRead_bool.
  split; [|split; reflexivity].
  destruct on_absent;
    destruct (child reader "ammo") as [[s|z|b]|];
    destruct (child reader "rearming") as [[s1|z1|b1]|];
    destruct (child reader "disabled") as [[s2|z2|b2]|]; reflexivity.
Qed.

(** X13. [load] stores the ammo it reads unclamped, so a record can
    put the weapon outside [0, ammoMax]; the next [rearm] (or
    [setAmmo]) brings it back inside, whatever state it starts from,
    as long as [ammoMax >= 0]. *)
Theorem load_then_rearm_in_bounds (reader : YamlNode) (w : World)
    (z available clipSize : Z) :
  0 <= getAmmoMax (_rules (self w)) ->
  child reader "ammo" = Some (YInt z) ->
  let loaded := snd (load reader w) in
  _ammo (self loaded) = z /\
  ammo_inv (self (snd (rearm available clipSize loaded))) /\
  (forall newAmmo : Z, ammo_inv (self (snd (setAmmo newAmmo loaded)))).
Proof.
  intros Hm Hz loaded. unfold loaded.
  rewrite load_run; simpl. unfold tryRead_int at 1. rewrite Hz.
  split; [reflexivity|]. split.
  - pose proof (rearm_run available clipSize
                  (snd (load reader w))) as Hrun; cbv zeta in Hrun.
    rewrite load_run in Hrun; simpl in Hrun. rewrite Hrun.
    unfold ammo_inv; simpl. apply clamp_bounds; assumption.
  - intros newAmmo. rewrite setAmmo_run. unfold ammo_inv; simpl.
    apply clamp_bounds; assumption.
Qed.

(** X14. The two flag setters act on separate fields: applied in
    either order they give the same world, in which [isRearming]
    answers [rearming && !disabled] and [isDisabled] answers
    [disabled]; ammo, rules and generator are untouched. *)
Theorem setters_commute (w : World) (rearming disabled : bool) :
  let w1 := snd (setDisabled disabled (snd (setRearming rearming w))) in
  let w2 := snd (setRearming rearming (snd (setDisabled disabled w))) in
  w1 = w2 /\
  fst (isRearming w1) = rearming && negb disabled /\
  fst (isDisabled w1) = disabled /\
  _ammo (self w1) = _ammo (self w) /\
  _rules (self w1) = _rules (self w) /\
  rng w1 = rng w.
Proof.
  unfold setDisabled, setRearming, set_disabled, set_rearming,
    isRearming, isDisabled, bind, this_, ret; simpl.
  destruct rearming, disabled; repeat split; reflexivity.
Qed.

(** X15. Disabling hides a pending rearm without dropping it: after
    [setDisabled true] the weapon does not present as rearming, and
    after [setDisabled false] it answers what it answered before it was
    disabled (on an enabled weapon). *)
Theorem disable_enable_restores (w : World) :
  _disabled (self w) = false ->
  let off := snd (setDisabled true w) in
  let on := snd (setDisabled false off) in
  fst (isRearming off) = false /\
  fst (isRearming on) = fst (isRearming w) /\
  on = w.
Proof.
  intros Hd off on. unfold on, off.
  unfold setDisabled, set_disabled, isRearming, bind, this_, ret; simpl.
  destruct w as [[rules ammo rearming disabled] g]; simpl in *.
  subst disabled. repeat split; reflexivity.
Qed.

(** X16. On a state within the data model, writing back the ammo just
    read is a no-op that reports success. *)
Theorem setAmmo_getAmmo_noop (w : World) :
  ammo_inv (self w) ->
  setAmmo (fst (getAmmo w)) w = (true, w).
Proof.
  intros [Ha0 Ha]. rewrite setAmmo_run.
  unfold getAmmo, bind, this_, ret; simpl.
  assert (Hcl : clamp 0 (getAmmoMax (_rules (self w))) (_ammo (self w))
                = _ammo (self w)) by (unfold clamp; cmp; lia).
  rewrite Hcl.
  assert (Hneg : (_ammo (self w) <? 0) = false) by (apply Z.ltb_ge; lia).
  rewrite Hneg.
  destruct w as [[rules ammo rearming disabled] g]; reflexivity.
Qed.

(** X17. [rearm] and [getClipsLoaded] agree on whole clips: with a
    clip item of the clip size used for rearming, the ammo missing a
    whole number of clips and [ammoMax + clipSize] not above
    [INT_MAX], the clips loaded grow by exactly the clips [rearm]
    reports. *)
Theorem rearm_adds_loaded_clips (w : World) (available : Z) (c : RuleItem) :
  getClipItem (_rules (self w)) = Some c ->
  0 < getClipSize c ->
  0 <= getRearmRate (_rules (self w)) ->
  ammo_inv (self w) ->
  0 <= available ->
  getAmmoMax (_rules (self w)) + getClipSize c <= INT_MAX ->
  (getAmmoMax (_rules (self w)) - _ammo (self w)) mod getClipSize c = 0 ->
  let result := fst (rearm available (getClipSize c) w) in
  let w' := snd (rearm available (getClipSize c) w) in
  fst (getClipsLoaded w) = Some (_ammo (self w) / getClipSize c) /\
  fst (getClipsLoaded w')
  = Some (_ammo (self w) / getClipSize c + result).
Proof.
  intros Hclip Hpos Hr Ha Hav Hint Hmod result w'. unfold result, w'.
  destruct (rearm_by_clips w available (getClipSize c) Hr Ha Hav Hpos Hint)
    as (Hrun & Hk & Hkr & Hkm & Hd & _).
  cbv zeta in Hrun, Hk, Hkr, Hkm, Hd.
  set (k := spec_clipsToUse _ _ _ _) in *.
  destruct Ha as [Ha0 Ha].
  apply Z.mod_divide in Hmod; [|lia]. destruct Hmod as [m Hm].
  assert (Hkm' : k < m + 1)
    by (apply (Z.mul_lt_mono_pos_r (getClipSize c)); lia).
  assert (Hfit : _ammo (self w) + k * getClipSize c
                 <= getAmmoMax (_rules (self w))) by nia.
  destruct (exact_draws _ _ _ _) eqn:Hdr; [specialize (Hd eq_refl); lia|].
  rewrite Hrun.
  unfold getClipsLoaded, getRules, bind, this_, ret; simpl.
  rewrite Hclip, Z.gtb_ltb.
  destruct (Z.ltb_spec 0 (getClipSize c)); [|lia].
  unfold floor_double_div.
  destruct (Z.eqb_spec (getClipSize c) 0); [lia|].
  split; [reflexivity|]. f_equal.
  rewrite Z.min_r by lia. rewrite Z.div_add by lia. lia.
Qed.

End Persistence.

(** * Further properties: edges of the arithmetic *)

Section RearmEdges.
Context {R : RNG}.

(** X18. [rearm] does not guard against a negative [available]: within
    the data model and with [clipSize > 0], as long as the products and
    sums stay within [int] ([ammoMax + clipSize <= INT_MAX] and
    [INT_MIN < available * clipSize - ammoMax]), it takes [-available]
    clips' worth of ammo out of the weapon (down to 0 at most), reports
    the negative count, and never consults the generator. *)
Theorem rearm_negative_available (w : World) (available clipSize : Z) :
  0 <= getRearmRate (_rules (self w)) ->
  ammo_inv (self w) ->
  available < 0 ->
  0 < clipSize ->
  getAmmoMax (_rules (self w)) + clipSize <= INT_MAX ->
  INT_MIN < available * clipSize - getAmmoMax (_rules (self w)) ->
  fst (rearm available clipSize w) = available /\
  _ammo (self (snd (rearm available clipSize w)))
  = Z.max 0 (_ammo (self w) + available * clipSize) /\
  rng (snd (rearm available clipSize w)) = rng w.
Proof.
  intros Hr [Ha0 Ha] Hav Hc Hfit Hlow.
  set (rules := _rules (self w)) in *. set (ammo := _ammo (self w)) in *.
  pose proof (exact_needed_floor rules ammo clipSize Hr Ha Hc) as Hn.
  pose proof (spec_needed_bounds rules ammo clipSize Hr Ha Hc) as [Hn0 Hnb].
  assert (Hu : exact_ammoUsed rules ammo available clipSize
               = available * clipSize).
  { unfold exact_ammoUsed. rewrite Hn, !Z.gtb_ltb.
    destruct (Z.ltb_spec 0 clipSize); [|lia].
    destruct (Z.ltb_spec available (spec_needed rules ammo clipSize));
      [reflexivity | lia]. }
  assert (Hq : Z.quot (available * clipSize) clipSize = available)
    by (apply Z.quot_mul; lia).
  assert (Hall : Forall int_range
                   (rearm_values rules ammo available clipSize)).
  { unfold rearm_values, exact_overusedAmmo. rewrite Hn, Hu, Hq.
    unfold int_range, INT_MIN, INT_MAX in *.
    rewrite Z.gtb_ltb. destruct (Z.ltb_spec 0 clipSize); [|lia].
    assert (spec_needed rules ammo clipSize
            <= spec_needed rules ammo clipSize * clipSize) by nia.
    assert (available * clipSize <= available) by nia.
    repeat (apply Forall_cons; [lia|]). apply Forall_nil. }
  pose proof (rearm_run_exact available clipSize w Hall) as Hrun;
    cbv zeta in Hrun. fold rules ammo in Hrun.
  assert (Hd : exact_draws rules ammo available clipSize = false).
  { unfold exact_draws, exact_overusedAmmo. rewrite Hu.
    assert (Ho : (ammo + available * clipSize - getAmmoMax rules >? 0)
                 = false)
      by (rewrite Z.gtb_ltb; apply Z.ltb_ge; nia).
    rewrite Ho. apply andb_false_r. }
  rewrite Hrun, Hu, Hd, Hq; simpl.
  destruct (Z.leb_spec clipSize 0); [lia|].
  split; [lia|]. split; [|reflexivity]. unfold clamp. cmp; nia.
Qed.

(** X19. When the generator is consulted (clip size above 1, saving
    on, the last clip overflowing; [ammoMax + clipSize] not above
    [INT_MAX]), both outcomes are within its reach: a draw of 0 always
    saves the clip and a draw of [clipSize - 1] never does. *)
Theorem rearm_saving_extremes (w : World) (available clipSize : Z) :
  0 <= getRearmRate (_rules (self w)) ->
  ammo_inv (self w) ->
  0 <= available ->
  1 < clipSize ->
  getAmmoMax (_rules (self w)) + clipSize <= INT_MAX ->
  useStatisticalBulletSaving (_rules (self w)) = true ->
  0 < overusedAmmo_of (_rules (self w)) (_ammo (self w)) available clipSize ->
  let k := spec_clipsToUse (_rules (self w)) (_ammo (self w))
             available clipSize in
  let n := fst (generate 0 (clipSize - 1) (rng w)) in
  (n = 0 -> fst (rearm available clipSize w) = k - 1) /\
  (n = clipSize - 1 -> fst (rearm available clipSize w) = k).
Proof.
  intros Hr Ha Hav Hc Hfit Hflag Ho k n.
  destruct (rearm_by_clips w available clipSize Hr Ha Hav ltac:(lia) Hfit)
    as (Hrun & Hk & Hkr & Hkm & _ & _ & Heo).
  cbv zeta in Hrun, Hk, Hkr, Hkm, Heo.
  fold k in Hrun, Hk, Hkr, Hkm, Heo. fold n in Hrun.
  rewrite Heo in Ho.
  pose proof (exact_ammoUsed_clips (_rules (self w)) (_ammo (self w))
                available clipSize Hr (proj2 Ha) ltac:(lia)) as Hu.
  fold k in Hu.
  assert (Hd : exact_draws (_rules (self w)) (_ammo (self w))
                 available clipSize = true).
  { unfold exact_draws, exact_overusedAmmo. rewrite Hflag, Hu, !Z.gtb_ltb.
    rewrite !(proj2 (Z.ltb_lt _ _)) by lia. reflexivity. }
  rewrite Hrun, Hd; simpl. split; intros Hn; rewrite Hn.
  - rewrite (proj2 (Z.ltb_lt _ _)) by lia. reflexivity.
  - rewrite (proj2 (Z.ltb_ge _ _)) by lia. lia.
Qed.

End RearmEdges.

(** X20. On a state within the data model, with [int] inputs and
    [ammoMax + max(clipSize, rearmRate)] representable, no arithmetic
    result of [rearm] leaves the range of [int]: wrapping the results
    around changes none of them. *)
Theorem rearm_no_overflow (rules : RuleCraftWeapon)
    (ammo available clipSize : Z) :
  rules_wf rules ->
  0 <= ammo <= getAmmoMax rules ->
  0 <= available <= INT_MAX ->
  int_range clipSize ->
  getAmmoMax rules + Z.max clipSize (getRearmRate rules) <= INT_MAX ->
  Forall int_range (rearm_values rules ammo available clipSize) /\
  map wrap (rearm_values rules ammo available clipSize)
  = rearm_values rules ammo available clipSize.
Proof.
  intros Hw Ha Hav Hc Hsum. split.
  - apply rearm_values_in_range; assumption.
  - apply rearm_values_unwrapped; assumption.
Qed.

(** X21. The floating-point computation [(int)floor((double)a / b)] of
    [getClipsLoaded] is the floor quotient: for any rounding of the
    division that is monotone, exact on the integers a double holds and
    off by at most [2^-52] of the magnitude (or [2^-52] near 0), and for
    [int]s [a] and [b <> 0] whose floor quotient is an [int] (every
    pair but [INT_MIN] and [-1]), the conversion succeeds with
    [a / b]. *)
Theorem double_floor_is_floor_div (rnd : Q -> Q) (a b : Z) :
  (forall x y : Q, (x <= y)%Q -> (rnd x <= rnd y)%Q) ->
  (forall n : Z, Z.abs n <= 2 ^ 53 -> (rnd (inject_Z n) == inject_Z n)%Q) ->
  (forall x : Q, (Qabs (rnd x - x) <= (Qabs x + 1) * (1 # 2 ^ 52))%Q) ->
  int_range a -> int_range b -> b <> 0 ->
  int_range (a / b) ->
  floor_double_to_int rnd a b = Some (a / b) /\
  floor_double_to_int rnd a b = floor_double_div a b.
Proof.
  intros Hmono Hint Herr Ha Hb Hb0 Hq.
  pose proof (floor_rounded_quotient rnd Hmono Hint Herr a b Ha Hb Hb0) as H.
  unfold floor_double_div in *. unfold floor_double_to_int.
  destruct (Z.eqb_spec b 0); [contradiction|].
  injection H as H. rewrite <- H. unfold to_int.
  unfold int_range in Hq. destruct Hq as [Hlo Hhi].
  rewrite (proj2 (Z.leb_le _ _) Hlo), (proj2 (Z.leb_le _ _) Hhi).
  split; reflexivity.
Qed.

(** * The further properties on concrete inputs *)

(** Closes a conjunction of facts already in the context. *)
Ltac given :=
  repeat match goal with
         | |- _ /\ _ => split; [assumption|]
         end;
  assumption.

Lemma rearm_gain_bounded_witness :
  let w := world_of (cannon 55 20 true None) 40 true false [3; 7] in
  (0 <= getRearmRate (_rules (self w)) /\ ammo_inv (self w) /\ 0 <= 5
   /\ 55 + Z.max 10 20 <= INT_MAX) /\
  40 <= _ammo (self (snd (rearm 5 10 w))) <= 40 + 20.
Proof.
  intros w.
  assert (H1 : 0 <= getRearmRate (_rules (self w))) by (simpl; lia).
  assert (H2 : ammo_inv (self w)) by (unfold ammo_inv; simpl; lia).
  assert (H3 : 0 <= 5) by lia.
  assert (H4 : getAmmoMax (_rules (self w))
               + Z.max 10 (getRearmRate (_rules (self w))) <= INT_MAX)
    by (unfold INT_MAX; simpl; lia).
  split; [given|].
  exact (rearm_gain_bounded w 5 10 H1 H2 H3 H4).
Defined.

Lemma rearm_stalls_below_clip_size_witness :
  let w := world_of (cannon 60 5 true None) 20 true false [3; 7] in
  (0 <= getRearmRate (_rules (self w)) < 10 /\ ammo_inv (self w)
   /\ 0 <= 8 /\ 60 <= INT_MAX /\ 60 - 20 + 10 <= INT_MAX) /\
  fst (rearm 8 10 w) = 0 /\
  _ammo (self (snd (rearm 8 10 w))) = 20 /\
  rng (snd (rearm 8 10 w)) = [3; 7] /\
  _rearming (self (snd (rearm 8 10 w))) = (20 <? 60).
Proof.
  intros w.
  assert (H1 : 0 <= getRearmRate (_rules (self w)) < 10) by (simpl; lia).
  assert (H2 : ammo_inv (self w)) by (unfold ammo_inv; simpl; lia).
  assert (H3 : 0 <= 8) by lia.
  assert (H4 : getAmmoMax (_rules (self w)) <= INT_MAX)
    by (unfold INT_MAX; simpl; lia).
  assert (H5 : getAmmoMax (_rules (self w)) - _ammo (self w) + 10
               <= INT_MAX) by (unfold INT_MAX; simpl; lia).
  split; [given|].
  exact (rearm_stalls_below_clip_size w 8 10 H1 H2 H3 H4 H5).
Defined.

Lemma rearm_progress_witness :
  let w := world_of (cannon 60 20 true None) 0 true false [3; 7] in
  (0 < 10 <= getRearmRate (_rules (self w)) /\ ammo_inv (self w)
   /\ 1 <= 5 /\ 0 < 60 /\ 60 + 10 <= INT_MAX) /\
  Z.min 60 (0 + 10) <= _ammo (self (snd (rearm 5 10 w))) /\
  0 < _ammo (self (snd (rearm 5 10 w))).
Proof.
  intros w.
  assert (H1 : 0 < 10 <= getRearmRate (_rules (self w))) by (simpl; lia).
  assert (H2 : ammo_inv (self w)) by (unfold ammo_inv; simpl; lia).
  assert (H3 : 1 <= 5) by lia.
  assert (H4 : _ammo (self w) < getAmmoMax (_rules (self w)))
    by (simpl; lia).
  assert (H5 : getAmmoMax (_rules (self w)) + 10 <= INT_MAX)
    by (unfold INT_MAX; simpl; lia).
  split; [given|].
  exact (rearm_progress w 5 10 H1 H2 H3 H4 H5).
Defined.

Lemma rearm_clips_match_gain_witness :
  let w := world_of (cannon 55 20 true None) 40 true false [3; 7] in
  (0 <= getRearmRate (_rules (self w)) /\ ammo_inv (self w)
   /\ 0 <= 5 /\ 0 < 10 /\ 55 + 10 <= INT_MAX) /\
  overusedAmmo_of (cannon 55 20 true None) 40 5 10 <= 10 - 1 /\
  fst (rearm 5 10 w) * 10 - 10
    < _ammo (self (snd (rearm 5 10 w))) - 40
    < fst (rearm 5 10 w) * 10 + 10.
Proof.
  intros w.
  assert (H1 : 0 <= getRearmRate (_rules (self w))) by (simpl; lia).
  assert (H2 : ammo_inv (self w)) by (unfold ammo_inv; simpl; lia).
  assert (H3 : 0 <= 5) by lia.
  assert (H4 : 0 < 10) by lia.
  assert (H5 : getAmmoMax (_rules (self w)) + 10 <= INT_MAX)
    by (unfold INT_MAX; simpl; lia).
  split; [given|].
  destruct (rearm_clips_match_gain w 5 10 H1 H2 H3 H4 H5) as (Ho & Hg & _).
  split; [exact Ho | exact Hg].
Defined.


Lemma needed_of_rounds_up_witness :
  let w := world_of (cannon 55 20 false None) 40 true false [3; 7] in
  (0 <= getRearmRate (_rules (self w)) /\ ammo_inv (self w)
   /\ 0 <= 5 /\ 0 < 10 /\ 55 + 10 <= INT_MAX) /\
  needed_of (cannon 55 20 false None) 40 10
  = Z.min (20 / 10) ((55 - 40 + 10 - 1) / 10) /\
  55 - 40 <= (55 - 40 + 10 - 1) / 10 * 10 < 55 - 40 + 10 /\
  fst (rearm 5 10 w) = Z.min (Z.min (20 / 10) ((55 - 40 + 10 - 1) / 10)) 5.
Proof.
  intros w.
  assert (H1 : 0 <= getRearmRate (_rules (self w))) by (simpl; lia).
  assert (H2 : ammo_inv (self w)) by (unfold ammo_inv; simpl; lia).
  assert (H3 : 0 <= 5) by lia.
  assert (H4 : 0 < 10) by lia.
  assert (H5 : getAmmoMax (_rules (self w)) + 10 <= INT_MAX)
    by (unfold INT_MAX; simpl; lia).
  split; [given|].
  destruct (needed_of_rounds_up w 5 10 H1 H2 H3 H4 H5) as (Hn & Hf & Hres).
  split; [exact Hn|]. split; [exact Hf | exact (Hres eq_refl)].
Defined.


Lemma rearm_done_iff_full_witness :
  let w := world_of (cannon 55 30 true None) 40 true true [3; 7] in
  0 <= getAmmoMax (_rules (self w)) /\
  (_rearming (self (snd (rearm 5 10 w))) = false
   <-> _ammo (self (snd (rearm 5 10 w))) = 55) /\
  (fst (isRearming (snd (rearm 5 10 w))) = true
   <-> true = false /\ _ammo (self (snd (rearm 5 10 w))) < 55).
Proof.
  intros w.
  assert (H1 : 0 <= getAmmoMax (_rules (self w))) by (simpl; lia).
  split; [exact H1|].
  destruct (rearm_done_iff_full w 5 10 H1) as (Hfull & Hre & _).
  split; [exact Hfull | exact Hre].
Defined.

Lemma load_then_rearm_in_bounds_witness :
  let w := world_of (cannon 60 20 true None) 25 false false [3] in
  let reader : YamlNode := [("ammo"%string, YInt 1000)] in
  let loaded := snd (load (Y := DefaultingReader) reader w) in
  (0 <= getAmmoMax (_rules (self w))
   /\ child reader "ammo" = Some (YInt 1000)) /\
  ~ ammo_inv (self loaded) /\
  _ammo (self loaded) = 1000 /\
  ammo_inv (self (snd (rearm 5 10 loaded))).
Proof.
  intros w reader loaded.
  assert (H1 : 0 <= getAmmoMax (_rules (self w))) by (simpl; lia).
  assert (H2 : child reader "ammo" = Some (YInt 1000)) by reflexivity.
  split; [given|].
  split; [intros [_ H]; vm_compute in H; exact (H eq_refl)|].
  destruct (load_then_rearm_in_bounds (Y := DefaultingReader)
              reader w 1000 5 10 H1 H2)
    as (Ha & Hinv & _).
  split; [exact Ha | exact Hinv].
Defined.

Lemma disable_enable_restores_witness :
  let w := world_of (cannon 60 20 true None) 25 true false [3] in
  _disabled (self w) = false /\
  fst (isRearming (snd (setDisabled true w))) = false /\
  fst (isRearming (snd (setDisabled false (snd (setDisabled true w)))))
  = fst (isRearming w) /\
  snd (setDisabled false (snd (setDisabled true w))) = w.
Proof.
  intros w.
  assert (H1 : _disabled (self w) = false) by reflexivity.
  split; [exact H1|].
  exact (disable_enable_restores w H1).
Defined.

Lemma setAmmo_getAmmo_noop_witness :
  let w := world_of (cannon 60 20 true None) 25 true false [3] in
  ammo_inv (self w) /\ setAmmo (fst (getAmmo w)) w = (true, w).
Proof.
  intros w.
  assert (H1 : ammo_inv (self w)) by (unfold ammo_inv; simpl; lia).
  split; [exact H1|].
  exact (setAmmo_getAmmo_noop w H1).
Defined.

Lemma rearm_adds_loaded_clips_witness :
  let clip := mkRuleItem 10 in
  let w := world_of (cannon 60 20 true (Some clip)) 40 true false [3] in
  (getClipItem (_rules (self w)) = Some clip /\ 0 < getClipSize clip
   /\ 0 <= getRearmRate (_rules (self w)) /\ ammo_inv (self w)
   /\ 0 <= 5 /\ 60 + 10 <= INT_MAX /\ (60 - 40) mod 10 = 0) /\
  fst (getClipsLoaded w) = Some (40 / 10) /\
  fst (getClipsLoaded (snd (rearm 5 10 w)))
  = Some (40 / 10 + fst (rearm 5 10 w)).
Proof.
  intros clip w.
  assert (H1 : getClipItem (_rules (self w)) = Some clip) by reflexivity.
  assert (H2 : 0 < getClipSize clip) by (simpl; lia).
  assert (H3 : 0 <= getRearmRate (_rules (self w))) by (simpl; lia).
  assert (H4 : ammo_inv (self w)) by (unfold ammo_inv; simpl; lia).
  assert (H5 : 0 <= 5) by lia.
  assert (H6 : (getAmmoMax (_rules (self w)) - _ammo (self w))
               mod getClipSize clip = 0) by reflexivity.
  assert (H7 : getAmmoMax (_rules (self w)) + getClipSize clip <= INT_MAX)
    by (unfold INT_MAX; simpl; lia).
  split; [given|].
  exact (rearm_adds_loaded_clips w 5 clip H1 H2 H3 H4 H5 H7 H6).
Defined.

Lemma rearm_negative_available_witness :
  let w := world_of (cannon 60 20 true None) 25 true false [3] in
  (0 <= getRearmRate (_rules (self w)) /\ ammo_inv (self w)
   /\ -1 < 0 /\ 0 < 10 /\ 60 + 10 <= INT_MAX
   /\ INT_MIN < -1 * 10 - 60) /\
  fst (rearm (-1) 10 w) = -1 /\
  _ammo (self (snd (rearm (-1) 10 w))) = Z.max 0 (25 + -1 * 10) /\
  rng (snd (rearm (-1) 10 w)) = [3].
Proof.
  intros w.
  assert (H1 : 0 <= getRearmRate (_rules (self w))) by (simpl; lia).
  assert (H2 : ammo_inv (self w)) by (unfold ammo_inv; simpl; lia).
  assert (H3 : -1 < 0) by lia.
  assert (H4 : 0 < 10) by lia.
  assert (H5 : getAmmoMax (_rules (self w)) + 10 <= INT_MAX)
    by (unfold INT_MAX; simpl; lia).
  assert (H6 : INT_MIN < -1 * 10 - getAmmoMax (_rules (self w)))
    by (unfold INT_MIN; simpl; lia).
  split; [given|].
  exact (rearm_negative_available w (-1) 10 H1 H2 H3 H4 H5 H6).
Defined.

Lemma rearm_saving_extremes_witness :
  let w := world_of (cannon 55 20 true None) 40 true false [0; 7] in
  (0 <= getRearmRate (_rules (self w)) /\ ammo_inv (self w)
   /\ 0 <= 5 /\ 1 < 10 /\ 55 + 10 <= INT_MAX
   /\ useStatisticalBulletSaving (_rules (self w)) = true
   /\ 0 < overusedAmmo_of (_rules (self w)) (_ammo (self w)) 5 10
   /\ fst (generate 0 (10 - 1) (rng w)) = 0) /\
  fst (rearm 5 10 w) = 2 - 1.
Proof.
  intros w.
  assert (H1 : 0 <= getRearmRate (_rules (self w))) by (simpl; lia).
  assert (H2 : ammo_inv (self w)) by (unfold ammo_inv; simpl; lia).
  assert (H3 : 0 <= 5) by lia.
  assert (H4 : 1 < 10) by lia.
  assert (H5 : useStatisticalBulletSaving (_rules (self w)) = true)
    by reflexivity.
  assert (H6 : 0 < overusedAmmo_of (_rules (self w)) (_ammo (self w)) 5 10)
    by reflexivity.
  assert (H7 : fst (generate 0 (10 - 1) (rng w)) = 0) by reflexivity.
  assert (H8 : getAmmoMax (_rules (self w)) + 10 <= INT_MAX)
    by (unfold INT_MAX; simpl; lia).
  split; [given|].
  exact (proj1 (rearm_saving_extremes w 5 10 H1 H2 H3 H4 H8 H5 H6) H7).
Defined.

Lemma rearm_no_overflow_witness :
  (rules_wf (cannon 55 20 true None) /\ 0 <= 40 <= 55
   /\ 0 <= 5 <= INT_MAX /\ int_range 10
   /\ 55 + Z.max 10 20 <= INT_MAX) /\
  Forall int_range (rearm_values (cannon 55 20 true None) 40 5 10) /\
  map wrap (rearm_values (cannon 55 20 true None) 40 5 10)
  = rearm_values (cannon 55 20 true None) 40 5 10.
Proof.
  assert (H1 : rules_wf (cannon 55 20 true None))
    by (unfold rules_wf; simpl; lia).
  assert (H2 : 0 <= 40 <= getAmmoMax (cannon 55 20 true None))
    by (simpl; lia).
  assert (H3 : 0 <= 5 <= INT_MAX) by (unfold INT_MAX; lia).
  assert (H4 : int_range 10) by (unfold int_range, INT_MIN, INT_MAX; lia).
  assert (H5 : getAmmoMax (cannon 55 20 true None)
               + Z.max 10 (getRearmRate (cannon 55 20 true None))
               <= INT_MAX) by (unfold INT_MAX; simpl; lia).
  split; [given|].
  exact (rearm_no_overflow (cannon 55 20 true None) 40 5 10 H1 H2 H3 H4 H5).
Defined.

Lemma double_floor_is_floor_div_witness :
  (int_range 40 /\ int_range 15 /\ 15 <> 0 /\ int_range (40 / 15)) /\
  ~ (round_down_52 (inject_Z 40 / inject_Z 15)
     == inject_Z 40 / inject_Z 15)%Q /\
  floor_double_to_int round_down_52 40 15 = Some (40 / 15) /\
  floor_double_to_int round_down_52 40 15 = floor_double_div 40 15.
Proof.
  assert (H1 : forall x y : Q,
             (x <= y)%Q -> (round_down_52 x <= round_down_52 y)%Q)
    by exact round_down_52_monotone.
  assert (H2 : forall n : Z, Z.abs n <= 2 ^ 53 ->
                             (round_down_52 (inject_Z n) == inject_Z n)%Q)
    by (intros n _; apply round_down_52_integer).
  assert (H3 : forall x : Q,
             (Qabs (round_down_52 x - x) <= (Qabs x + 1) * (1 # 2 ^ 52))%Q)
    by exact round_down_52_error.
  assert (H4 : int_range 40) by (unfold int_range, INT_MIN, INT_MAX; lia).
  assert (H5 : int_range 15) by (unfold int_range, INT_MIN, INT_MAX; lia).
  assert (H6 : 15 <> 0) by lia.
  assert (H7 : int_range (40 / 15))
    by (vm_compute; split; discriminate).
  split; [given|].
  split; [vm_compute; discriminate|].
  exact (double_floor_is_floor_div round_down_52 40 15
           H1 H2 H3 H4 H5 H6 H7).
Defined.
